(** * Global tombstone (GMT) policy of CrossWatch: [cw_platform/gmt_policy.py]

    A shallow embedding of the policy module and the properties of its
    operations: the opposing-operation table, the default canonical key,
    the quarantine TTL resolver, the negative event normaliser and the
    fail-open suppression predicate. *)

From Stdlib Require Import ZArith String Ascii List Bool Lia DecimalString.
From Stdlib Require DecimalPos.
Import ListNotations.
Local Open Scope string_scope.
Local Open Scope Z_scope.
Set Warnings "-register-all".

(** ** Python values and builtins used by the module *)

(** Exceptions.  Every constructor stands for a subclass of Python's
    [Exception], which is what [except Exception] catches; interpreter
    exits deriving from [BaseException] only are not represented.
    [OtherError] is any other class, none of the four named here nor a
    subclass of them. *)
Inductive exn : Type :=
| TypeError
| AttributeError
| ValueError
| OverflowError
| OtherError (name : string).

(** Outcome of evaluating an expression: a value or a raised exception. *)
Inductive result (A : Type) : Type :=
| Ok (a : A)
| Raise (e : exn).
Arguments Ok {A} a.
Arguments Raise {A} e.

(** *** Floats: IEEE binary64

    Every finite double is a whole multiple of [2^-1074]: [F n] is the
    double of value [n * 2^-1074].  A double has at most 53 significant
    bits and is below [2^1024] in magnitude, see [is_double]. *)
Inductive float : Type :=
| F (n : Z)
| FNegZero
| FInf (negative : bool)
| FNaN.

(** The integer [s] as a count of units of [2^-1074]. *)
Definition scaled (s : Z) : Z := s * 2 ^ 1074.

(** The double of value [s], for a whole number [s] that is one. *)
Definition seconds (s : Z) : float := F (scaled s).

(** Magnitudes at and beyond which a rounded value is infinite: [2^1024],
    in units of [2^-1074]. *)
Definition overflow_threshold : Z := 2 ^ 2098.

(** The values of [F] that are doubles. *)
Definition is_double (n : Z) : bool :=
  let a := Z.abs n in
  (a <? overflow_threshold) && (a mod 2 ^ Z.max 0 (Z.log2 a - 52) =? 0).

(** Rounding of a magnitude to 53 significant bits, to nearest, ties to
    even. *)
Definition round_mag (a : Z) : Z :=
  let k := Z.max 0 (Z.log2 a - 52) in
  let q := a / 2 ^ k in
  let r := a mod 2 ^ k in
  (if (2 ^ k <? 2 * r) || ((2 * r =? 2 ^ k) && Z.odd q) then q + 1 else q) * 2 ^ k.

(** The double nearest to the exact value [d * 2^-1074]. *)
Definition round_scaled (d : Z) : float :=
  let m := round_mag (Z.abs d) in
  if overflow_threshold <=? m then FInf (d <? 0) else F (Z.sgn d * m).

(** Rounding at a fixed exponent [k]: [round_mag] is [round_at] at the
    exponent of its argument. *)
Definition round_at (k a : Z) : Z :=
  let q := a / 2 ^ k in
  let r := a mod 2 ^ k in
  (if (2 ^ k <? 2 * r) || ((2 * r =? 2 ^ k) && Z.odd q) then q + 1 else q) * 2 ^ k.

(** The value that [round_scaled] gives below the overflow threshold. *)
Definition rounded (d : Z) : Z := Z.sgn d * round_mag (Z.abs d).

(** Conversion of an [int] operand to a float: correctly rounded,
    [OverflowError] when the result is not finite. *)
Definition float_of_int (z : Z) : result float :=
  match round_scaled (scaled z) with
  | FInf _ => Raise OverflowError
  | x => Ok x
  end.

(** [x - y] on floats. *)
Definition fsub (x y : float) : float :=
  match x, y with
  | FNaN, _ | _, FNaN => FNaN
  | FInf s, FInf s' => if Bool.eqb s s' then FNaN else FInf s
  | FInf s, _ => FInf s
  | _, FInf s => FInf (negb s)
  | FNegZero, FNegZero => F 0
  | FNegZero, F n => if n =? 0 then FNegZero else round_scaled (- n)
  | F n, FNegZero => round_scaled n
  | F n, F m => round_scaled (n - m)
  end.

(** [x < t] for a float [x] and an [int] [t]: the comparison is exact. *)
Definition flt_int (x : float) (t : Z) : bool :=
  match x with
  | F n => n <? scaled t
  | FNegZero => 0 <? t
  | FInf negative => negative
  | FNaN => false
  end.

(** [int(x)] on a float: truncation towards zero. *)
Definition int_of_float (x : float) : result Z :=
  match x with
  | F n => Ok (Z.quot n (2 ^ 1074))
  | FNegZero => Ok 0
  | FInf _ => Raise OverflowError
  | FNaN => Raise ValueError
  end.

(** Truth value of a float: every float but the two zeros. *)
Definition float_truthy (x : float) : bool :=
  match x with
  | F n => negb (n =? 0)
  | FNegZero => false
  | _ => true
  end.

(** *** Values

    The values that configuration trees, entities and store answers are
    made of.  A [dict] has string keys and keeps insertion order; lookup
    returns the first binding of a key.  A float comes with the text
    that [str] prints for it, whose digits are not computed here.  Lists
    and user objects are not represented. *)
Inductive pyval : Type :=
| PNone
| PBool (b : bool)
| PInt (z : Z)
| PFloat (x : float) (text : string)
| PStr (s : string)
| PDict (d : list (string * pyval)).

Definition dict : Type := list (string * pyval).

(** *** Text: a character is a code point below 256 *)

Definition in_range (lo hi n : N) : bool := ((lo <=? n) && (n <=? hi))%N.

(** [str.lower] on one character. *)
Definition lower_char (c : ascii) : ascii :=
  let n := N_of_ascii c in
  if in_range 65 90 n || (in_range 192 222 n && negb (n =? 215)%N)
  then ascii_of_N (n + 32)
  else c.

(** [str.lower]. *)
Fixpoint lower (s : string) : string :=
  match s with
  | EmptyString => EmptyString
  | String c r => String (lower_char c) (lower r)
  end.

(** [str.isspace] on one character. *)
Definition is_space (c : ascii) : bool :=
  let n := N_of_ascii c in
  in_range 9 13 n || in_range 28 32 n || (n =? 133)%N || (n =? 160)%N.

Fixpoint lstrip_with (space : ascii -> bool) (s : string) : string :=
  match s with
  | EmptyString => EmptyString
  | String c r => if space c then lstrip_with space r else s
  end.

Fixpoint rstrip_with (space : ascii -> bool) (s : string) : string :=
  match s with
  | EmptyString => EmptyString
  | String c r =>
      match rstrip_with space r with
      | EmptyString => if space c then EmptyString else String c EmptyString
      | r' => String c r'
      end
  end.

(** [str.strip] without argument. *)
Definition strip (s : string) : string := rstrip_with is_space (lstrip_with is_space s).

Fixpoint contains_char (c : ascii) (s : string) : bool :=
  match s with
  | EmptyString => false
  | String x r => Ascii.eqb x c || contains_char c r
  end.

Definition hex_digit (n : N) : ascii :=
  if (n <? 10)%N then ascii_of_N (48 + n) else ascii_of_N (87 + n).

(** Characters that [repr] writes as they are. *)
Definition is_printable (c : ascii) : bool :=
  let n := N_of_ascii c in
  in_range 32 126 n || (in_range 161 255 n && negb (n =? 173)%N).

Definition backslash : ascii := ascii_of_N 92.
Definition double_quote : ascii := ascii_of_N 34.
Definition single_quote : ascii := ascii_of_N 39.

Definition repr_char (quote c : ascii) : string :=
  let n := N_of_ascii c in
  if Ascii.eqb c quote || (n =? 92)%N then String backslash (String c EmptyString)
  else if (n =? 9)%N then String backslash "t"
  else if (n =? 10)%N then String backslash "n"
  else if (n =? 13)%N then String backslash "r"
  else if is_printable c then String c EmptyString
  else String backslash (String "x" (String (hex_digit (n / 16))
                                      (String (hex_digit (n mod 16)) EmptyString))).

Fixpoint repr_chars (quote : ascii) (s : string) : string :=
  match s with
  | EmptyString => EmptyString
  | String c r => repr_char quote c ++ repr_chars quote r
  end.

(** [repr] of a [str]: single quotes unless the text has a single quote
    and no double quote. *)
Definition repr_str (s : string) : string :=
  let quote :=
    if contains_char single_quote s && negb (contains_char double_quote s)
    then double_quote
    else single_quote in
  String quote (repr_chars quote s ++ String quote EmptyString).

(** Decimal text of an [int], whatever its length. *)
Definition str_of_int (z : Z) : string := NilZero.string_of_int (Z.to_int z).

(** The most digits an [int] may have to be converted to text or read
    from text. *)
Definition max_str_digits : nat := 4300.

(** The least magnitude of more than 4300 digits. *)
Definition digit_limit : Z := 10 ^ 4300.

(** [str] of an [int]: [ValueError] beyond 4300 digits, that is from
    [10^4300] on.  A magnitude below [2^14284] is below that bound, which
    spares the comparison for every number of ordinary size. *)
Definition int_text (z : Z) : result string :=
  if 14284 <=? Z.log2 (Z.abs z)
  then if digit_limit <=? Z.abs z then Raise ValueError else Ok (str_of_int z)
  else Ok (str_of_int z).

(** [repr(v)] *)
Fixpoint py_repr (v : pyval) : result string :=
  match v with
  | PNone => Ok "None"
  | PBool true => Ok "True"
  | PBool false => Ok "False"
  | PInt z => int_text z
  | PFloat _ text => Ok text
  | PStr s => Ok (repr_str s)
  | PDict d =>
      let fix items (l : list (string * pyval)) : result string :=
        match l with
        | [] => Ok EmptyString
        | (k, x) :: rest =>
            match py_repr x with
            | Raise e => Raise e
            | Ok t =>
                match rest with
                | [] => Ok (repr_str k ++ ": " ++ t)
                | _ =>
                    match items rest with
                    | Raise e => Raise e
                    | Ok ts => Ok (repr_str k ++ ": " ++ t ++ ", " ++ ts)
                    end
                end
            end
        end in
      match items d with
      | Raise e => Raise e
      | Ok s => Ok ("{" ++ s ++ "}")
      end
  end.

(** [str(v)], which is also what an f-string field [{v}] renders. *)
Definition py_str (v : pyval) : result string :=
  match v with
  | PStr s => Ok s
  | _ => py_repr v
  end.

(** Truth value of [v], as tested by [if v:], [v or w] and [bool(v)]. *)
Definition py_truthy (v : pyval) : bool :=
  match v with
  | PNone => false
  | PBool b => b
  | PInt z => negb (z =? 0)
  | PFloat x _ => float_truthy x
  | PStr s => negb (String.eqb s "")
  | PDict d => match d with [] => false | _ => true end
  end.

(** [a or b] *)
Definition py_or (a b : pyval) : pyval := if py_truthy a then a else b.

Definition is_none (v : pyval) : bool :=
  match v with PNone => true | _ => false end.

(** [isinstance(v, Mapping)], and [isinstance(v, dict)] *)
Definition is_mapping (v : pyval) : bool :=
  match v with PDict _ => true | _ => false end.

(** [isinstance(v, (int, float))]: [bool] is a subclass of [int]. *)
Definition is_int_or_float (v : pyval) : bool :=
  match v with PInt _ | PBool _ | PFloat _ _ => true | _ => false end.

(** First binding of [k] in a dict. *)
Fixpoint lookup (k : string) (d : dict) : option pyval :=
  match d with
  | [] => None
  | (k', v) :: rest => if String.eqb k' k then Some v else lookup k rest
  end.

(** [d.get(k, default)] on a dict. *)
Definition dict_get (d : dict) (k : string) (default : pyval) : pyval :=
  match lookup k d with Some v => v | None => default end.

(** [k in d] on a dict. *)
Definition dict_has (d : dict) (k : string) : bool :=
  match lookup k d with Some _ => true | None => false end.

(** [v.get(k)] on an arbitrary value: only a mapping has the method. *)
Definition py_get (v : pyval) (k : string) : result pyval :=
  match v with
  | PDict d => Ok (dict_get d k PNone)
  | _ => Raise AttributeError
  end.

(** [v.lower()] on an arbitrary value: only a [str] has the method. *)
Definition py_lower (v : pyval) : result string :=
  match v with
  | PStr s => Ok (lower s)
  | _ => Raise AttributeError
  end.

Definition digit_value (c : ascii) : option Z :=
  let n := N_of_ascii c in
  if in_range 48 57 n then Some (Z.of_N n - 48) else None.

(** Decimal digits with single underscores between digits. *)
Fixpoint digits_value (s : string) (acc : Z) (after_digit : bool) : option Z :=
  match s with
  | EmptyString => if after_digit then Some acc else None
  | String c r =>
      match digit_value c with
      | Some d => digits_value r (10 * acc + d) true
      | None =>
          if Ascii.eqb c "_" && after_digit then digits_value r acc false
          else None
      end
  end.

(** The number of digits in a text, leading zeros included. *)
Fixpoint count_digits (s : string) : nat :=
  match s with
  | EmptyString => O
  | String c r =>
      match digit_value c with
      | Some _ => S (count_digits r)
      | None => count_digits r
      end
  end.

(** The blanks that [int] skips around a number: those of [str.isspace]
    but for the four separators 28 to 31. *)
Definition is_int_space (c : ascii) : bool :=
  let n := N_of_ascii c in
  in_range 9 13 n || (n =? 32)%N || (n =? 133)%N || (n =? 160)%N.

(** [int(s)] on a [str], base ten: no number when the text is not one,
    or has more than 4300 digits. *)
Definition int_of_str (s : string) : option Z :=
  let t := rstrip_with is_int_space (lstrip_with is_int_space s) in
  if (max_str_digits <? count_digits t)%nat then None
  else
    match t with
    | String "-" r => option_map Z.opp (digits_value r 0 false)
    | String "+" r => digits_value r 0 false
    | _ => digits_value t 0 false
    end.

(** [int(v)] *)
Definition py_int (v : pyval) : result Z :=
  match v with
  | PInt z => Ok z
  | PBool b => Ok (if b then 1 else 0)
  | PFloat x _ => int_of_float x
  | PStr s => match int_of_str s with Some z => Ok z | None => Raise ValueError end
  | PNone | PDict _ => Raise TypeError
  end.

(** ** Scope types *)

Inductive ScopeList : Type := watchlist | ratings | history | playlists.
Inductive ScopeDim : Type := add | remove | rate | unrate | scrobble | unscrobble.

(** The frozen dataclass [Scope]. *)
Record Scope : Type := { scope_list : ScopeList; scope_dim : ScopeDim }.

(** The text of each literal. *)
Definition ScopeList_str (l : ScopeList) : string :=
  match l with
  | watchlist => "watchlist"
  | ratings => "ratings"
  | history => "history"
  | playlists => "playlists"
  end.

Definition ScopeDim_str (d : ScopeDim) : string :=
  match d with
  | add => "add"
  | remove => "remove"
  | rate => "rate"
  | unrate => "unrate"
  | scrobble => "scrobble"
  | unscrobble => "unscrobble"
  end.

(** ** Operation relationships *)

Definition OPPOSITE : list (string * string) :=
  [ ("add", "remove");
    ("remove", "add");
    ("rate", "unrate");
    ("unrate", "rate");
    ("scrobble", "unscrobble");
    ("unscrobble", "scrobble") ].

Definition NEGATIVE_OPS : list string := ["remove"; "unrate"; "unscrobble"].

(** [TABLE.get(k, default)] on a table of strings. *)
Fixpoint table_get (t : list (string * string)) (k default : string) : string :=
  match t with
  | [] => default
  | (k', v) :: rest => if String.eqb k' k then v else table_get rest k default
  end.

Fixpoint mem_str (k : string) (l : list string) : bool :=
  match l with
  | [] => false
  | x :: rest => String.eqb x k || mem_str k rest
  end.

(** [(op or "")] for an argument annotated [str]: [None] and the empty
    text both give the empty text. *)
Definition or_empty (op : option string) : string :=
  match op with Some s => s | None => EmptyString end.

Definition opposing (op : option string) : string :=
  table_get OPPOSITE (lower (or_empty op)) (lower (or_empty op)).

Definition is_negative (op : option string) : bool :=
  mem_str (lower (or_empty op)) NEGATIVE_OPS.

(** ** Canonical identity (ID-first; title/year fallback) *)

Definition _ID_KEYS : list string :=
  ["tmdb"; "imdb"; "tvdb"; "trakt"; "plex"; "guid"; "slug"].

(** Lines 45 to 48: the title/year form. *)
Definition fallback_key (item : dict) : result string :=
  match py_lower (py_or (dict_get item "type" PNone) (PStr EmptyString)) with
  | Raise e => Raise e
  | Ok t =>
      match py_str (py_or (dict_get item "title" PNone) (PStr EmptyString)) with
      | Raise e => Raise e
      | Ok title =>
          let ttl := lower (strip title) in
          let yr := py_or (dict_get item "year" PNone) (PStr EmptyString) in
          match py_str yr with
          | Raise e => Raise e
          | Ok year => Ok (t ++ "|title:" ++ ttl ++ "|year:" ++ year)
          end
      end
  end.

(** The loop over [_ID_KEYS], followed by the fallback. *)
Fixpoint id_loop (ids : pyval) (keys : list string) (item : dict) : result string :=
  match keys with
  | [] => fallback_key item
  | k :: rest =>
      match py_get ids k with
      | Raise e => Raise e
      | Ok v =>
          if py_truthy v
          then match py_str v with
               | Raise e => Raise e
               | Ok s => Ok (k ++ ":" ++ lower s)
               end
          else id_loop ids rest item
      end
  end.

(** The default resolver, used when [cw_platform.id_map] cannot be imported. *)
Definition canonical_key (item : dict) : result string :=
  let ids := py_or (dict_get item "ids" PNone) (PDict []) in
  id_loop ids _ID_KEYS item.

(** ** TTL policy *)

(** The loop of [_read], with [default=None]. *)
Fixpoint read_path (cur : pyval) (path : list string) : pyval :=
  match path with
  | [] => cur
  | key :: rest =>
      match cur with
      | PDict d =>
          let cur' := dict_get d key PNone in
          if is_none cur' then PNone else read_path cur' rest
      | _ => PNone
      end
  end.

Definition _read (cfg : pyval) (path : list string) : pyval :=
  read_path (py_or cfg (PDict [])) path.

Definition defaults_days : list (string * Z) :=
  [ ("watchlist", 7); ("ratings", 3); ("history", 2); ("playlists", 7) ].

Fixpoint days_get (t : list (string * Z)) (k : string) (default : Z) : Z :=
  match t with
  | [] => default
  | (k', v) :: rest => if String.eqb k' k then v else days_get rest k default
  end.

(** The test [isinstance(v, (int, float)) and int(v) > 0]: [Some z] when
    it passes, with [z] the [int(v)] that the [return] then computes
    again; the exception of [int(v)] when it raises. *)
Definition positive_int (v : pyval) : result (option Z) :=
  if is_int_or_float v
  then match py_int v with
       | Raise e => Raise e
       | Ok z => Ok (if 0 <? z then Some z else None)
       end
  else Ok None.

Definition get_quarantine_ttl_sec (cfg : pyval) (feature : option string) : result Z :=
  let feat := lower (or_empty feature) in
  let sec_override := _read cfg ["sync"; "gmt"; feat ++ "_sec"] in
  match positive_int sec_override with
  | Raise e => Raise e
  | Ok (Some sec) => Ok sec
  | Ok None =>
      let days_override := _read cfg ["sync"; "gmt"; feat ++ "_days"] in
      match positive_int days_override with
      | Raise e => Raise e
      | Ok (Some days) => Ok (days * 24 * 3600)
      | Ok None =>
          let global_days := _read cfg ["sync"; "gmt_quarantine_days"] in
          match positive_int global_days with
          | Raise e => Raise e
          | Ok (Some days) => Ok (days * 24 * 3600)
          | Ok None => Ok (days_get defaults_days feat 7 * 24 * 3600)
          end
      end
  end.

(** ** Event normalization *)

Definition negative_event_key (feature op : option string) : string :=
  let feat := lower (or_empty feature) in
  let _ := lower (or_empty op) in
  if String.eqb feat "ratings" then "unrate"
  else if String.eqb feat "history" then "unscrobble"
  else "remove".

(** ** Calls on the store, logged in program order *)

Record suppress_args : Type := {
  sa_key : string; sa_list : string; sa_dim : string;
  sa_ttl_sec : Z; sa_pair_id : option string }.

Record query_args : Type := {
  q_key : string; q_list : string; q_dim : string; q_pair_id : option string }.

Inductive call : Type :=
| ConfigCall (name : string)
| SuppressByKeyCall (a : suppress_args)
| LastNegativeTsCall (q : query_args)
| GetCall (q : query_args).

(** A computation logs the store methods it calls and ends with a value
    or a raised exception. *)
Definition M (A : Type) : Type := (list call * result A)%type.

Definition ret {A} (a : A) : M A := ([], Ok a).
Definition raise {A} (e : exn) : M A := ([], Raise e).
Definition lift {A} (r : result A) : M A := ([], r).

Definition bind {A B} (m : M A) (k : A -> M B) : M B :=
  match m with
  | (log, Ok a) => let (log', r) := k a in ((log ++ log')%list, r)
  | (log, Raise e) => (log, Raise e)
  end.

(** [try: m / except Exception: h] *)
Definition try_except {A} (m : M A) (h : exn -> M A) : M A :=
  match m with
  | (log, Ok a) => (log, Ok a)
  | (log, Raise e) => let (log', r) := h e in ((log ++ log')%list, r)
  end.

(** Calling a store method: the call is logged, its outcome is the
    method's. *)
Definition invoke {A} (c : call) (r : result A) : M A := ([c], r).

Notation "x <- c ;; k" := (bind c (fun x => k))
  (at level 61, c at next level, right associativity).

(** Statements that may [return]: [Some v] is a return of [v], [None] falls
    through to the next statement. *)
Definition next {A} (s1 s2 : M (option A)) : M (option A) :=
  r <- s1 ;; match r with Some v => ret (Some v) | None => s2 end.

(** ** The store, as the predicate sees it *)

(** What [getattr(store, name, None)] finds: nothing, a property that
    raises, a value that is not callable, or a method. *)
Inductive attr (F : Type) : Type :=
| Missing
| Faulty (e : exn)
| Plain (v : pyval)
| Method (f : F).
Arguments Missing {F}.
Arguments Faulty {F} e.
Arguments Plain {F} v.
Arguments Method {F} f.

Record Store : Type := {
  cfg : attr (unit -> result pyval);
  config : attr (unit -> result pyval);
  get_config : attr (unit -> result pyval);
  should_suppress_by_key : attr (suppress_args -> result pyval);
  last_negative_ts : attr (query_args -> result pyval);
  get : attr (query_args -> result pyval) }.

(** [getattr(store, name, None)]: an [AttributeError] raised while the
    attribute is read is taken as a missing attribute; any other
    exception goes on. *)
Definition getattr {F} (a : attr F) : result (attr F) :=
  match a with
  | Faulty AttributeError => Ok Missing
  | Faulty e => Raise e
  | _ => Ok a
  end.

(** ** Suppression predicate *)

(** The scope argument: a [Scope] object or any other value. *)
Inductive scope_arg : Type :=
| ScopeObj (s : Scope)
| ScopeVal (v : pyval).

Definition _coerce_scope (scope : scope_arg) : result (string * string) :=
  match scope with
  | ScopeObj s => Ok (ScopeList_str (scope_list s), ScopeDim_str (scope_dim s))
  | ScopeVal (PDict d) =>
      match py_str (dict_get d "list" (PStr EmptyString)) with
      | Raise e => Raise e
      | Ok l =>
          match py_str (dict_get d "dim" (PStr EmptyString)) with
          | Raise e => Raise e
          | Ok dm => Ok (lower l, lower dm)
          end
      end
  | ScopeVal _ => Raise TypeError
  end.

(** One turn of the loop of [_cfg_from_store]: [Some v] returns [v]. *)
Definition cfg_attr (name : string) (a : attr (unit -> result pyval)) : M (option pyval) :=
  try_except
    (v <- lift (getattr a) ;;
     match v with
     | Method f => r <- invoke (ConfigCall name) (f tt) ;; ret (Some r)
     | Plain p => if is_mapping p then ret (Some p) else ret None
     | _ => ret None
     end)
    (fun _ => ret None).

Definition _cfg_from_store (store : Store) : M pyval :=
  r <- next (cfg_attr "cfg" (cfg store))
         (next (cfg_attr "config" (config store))
               (cfg_attr "get_config" (get_config store))) ;;
  match r with Some v => ret v | None => ret PNone end.

(** [int(ttl_sec or policy)] for [ttl_sec : Optional[int]]; [policy] is
    the outcome of [get_quarantine_ttl_sec], which is not evaluated when
    the override is not zero. *)
Definition ttl_or (ttl_sec : option Z) (policy : result Z) : result Z :=
  match ttl_sec with
  | Some t => if t =? 0 then policy else Ok t
  | None => policy
  end.

(** [(time.time() - z) < ttl] for a reading [now] of the clock and the
    integers [z] and [ttl]: [z] is converted to a float, the difference is
    rounded, the comparison is exact. *)
Definition elapsed_lt (now : float) (z ttl : Z) : result bool :=
  match float_of_int z with
  | Raise e => Raise e
  | Ok zf => Ok (flt_int (fsub now zf) ttl)
  end.

(** Preferred store API: [should_suppress_by_key()]. *)
Definition by_predicate (store : Store) (a : suppress_args) : M (option bool) :=
  pred <- lift (getattr (should_suppress_by_key store)) ;;
  match pred with
  | Method pred => r <- invoke (SuppressByKeyCall a) (pred a) ;; ret (Some (py_truthy r))
  | _ => ret None
  end.

(** Next best: [last_negative_ts()] and the TTL check. *)
Definition by_last_ts (store : Store) (q : query_args) (ttl : Z) (now : float)
    : M (option bool) :=
  last_ts <- lift (getattr (last_negative_ts store)) ;;
  match last_ts with
  | Method last_ts =>
      ts <- invoke (LastNegativeTsCall q) (last_ts q) ;;
      if negb (is_none ts)
      then z <- lift (py_int ts) ;;
           b <- lift (elapsed_lt now z ttl) ;;
           ret (Some b)
      else ret None
  | _ => ret None
  end.

(** Generic lookup: [get(key, list, dim)] giving a record with [ts]. *)
Definition by_record (store : Store) (q : query_args) (ttl : Z) (now : float)
    : M (option bool) :=
  getrec <- lift (getattr (get store)) ;;
  match getrec with
  | Method getrec =>
      rec <- invoke (GetCall q) (getrec q) ;;
      match rec with
      | PDict d =>
          if dict_has d "ts"
          then z <- lift (py_int (dict_get d "ts" (PInt 0))) ;;
               b <- lift (elapsed_lt now z ttl) ;;
               ret (Some b)
          else ret None
      | _ => ret None
      end
  | _ => ret None
  end.

(** Lines 163 to 182: the three lookups, in program order. *)
Definition capability_probe (store : Store) (key feat want_dim : string) (ttl : Z)
    (pair_id : option string) (now : float) : M (option bool) :=
  let q := {| q_key := key; q_list := feat; q_dim := want_dim; q_pair_id := pair_id |} in
  next (by_predicate store
          {| sa_key := key; sa_list := feat; sa_dim := want_dim;
             sa_ttl_sec := ttl; sa_pair_id := pair_id |})
       (next (by_last_ts store q ttl now)
             (by_record store q ttl now)).

Section Predicate.

(** The resolver bound to the name [canonical_key] when the module is
    loaded: the one of [cw_platform.id_map], or the default above. *)
Variable resolver : dict -> result string.

(** The body of the [try] block; [now] is the reading of the clock. *)
Definition try_block (store : Store) (entity : dict) (scope : scope_arg)
    (pair_id : option string) (ttl_sec : option Z) (now : float) : M (option bool) :=
  fd <- lift (_coerce_scope scope) ;;
  let '(feat, write_dim) := fd in
  key <- lift (resolver entity) ;;
  cfg <- _cfg_from_store store ;;
  ttl <- lift (ttl_or ttl_sec (get_quarantine_ttl_sec cfg (Some feat))) ;;
  let want_dim := opposing (Some write_dim) in
  capability_probe store key feat want_dim ttl pair_id now.

Definition should_suppress_write (store : Store) (entity : dict) (scope : scope_arg)
    (pair_id : option string) (ttl_sec : option Z) (now : float) : M bool :=
  r <- try_except (try_block store entity scope pair_id ttl_sec now)
                  (fun _ => ret (Some false)) ;;
  match r with Some b => ret b | None => ret false end.

End Predicate.

(** The answer of a run and the store calls it made. *)
Definition answer {A} (m : M A) : result A := snd m.
Definition calls {A} (m : M A) : list call := fst m.

(** ** The TTL resolver as the design states it *)

(** An override takes effect only when it is a number whose whole part is
    strictly above zero, and it counts for that whole part; any other
    value counts as absent.  [True] is the number 1 and [False] the number
    0, as in Python; a float is cut down to its whole part, and a float
    that has none, NaN or an infinity, is an error. *)
Definition override_value (v : pyval) : result (option Z) :=
  match v with
  | PInt z => Ok (if 0 <? z then Some z else None)
  | PBool true => Ok (Some 1)
  | PBool false => Ok None
  | PFloat x _ =>
      match int_of_float x with
      | Raise e => Raise e
      | Ok z => Ok (if 0 <? z then Some z else None)
      end
  | _ => Ok None
  end.

(** Static default by feature, in days. *)
Definition default_days (feat : string) : Z :=
  if String.eqb feat "watchlist" then 7
  else if String.eqb feat "ratings" then 3
  else if String.eqb feat "history" then 2
  else if String.eqb feat "playlists" then 7
  else 7.

(** One tier of the resolution: the override when there is one, else the
    next tier. *)
Definition or_else (override : result (option Z)) (seconds_of : Z -> Z)
    (next_tier : result Z) : result Z :=
  match override with
  | Raise e => Raise e
  | Ok (Some z) => Ok (seconds_of z)
  | Ok None => next_tier
  end.

(** First match wins: per-feature seconds, per-feature days, global days,
    static default. *)
Definition quarantineTTLSeconds (cfg : pyval) (feature : option string) : result Z :=
  let feat := lower (or_empty feature) in
  or_else (override_value (_read cfg ["sync"; "gmt"; feat ++ "_sec"])) (fun sec => sec)
    (or_else (override_value (_read cfg ["sync"; "gmt"; feat ++ "_days"]))
       (fun days => days * 86400)
       (or_else (override_value (_read cfg ["sync"; "gmt_quarantine_days"]))
          (fun days => days * 86400)
          (Ok (default_days feat * 86400)))).

(** A setting that is not a float without a whole part. *)
Definition has_whole_part (v : pyval) : bool :=
  match v with
  | PFloat FNaN _ | PFloat (FInf _) _ => false
  | _ => true
  end.

(** The configuration of the precedence test. *)
Definition precedence_cfg : pyval :=
  PDict [("sync", PDict [("gmt_quarantine_days", PInt 5);
                         ("gmt", PDict [("ratings_days", PInt 2);
                                        ("ratings_sec", PInt 10)])])].

(** Some floats, with their text. *)
Definition nan : pyval := PFloat FNaN "nan".
Definition half : pyval := PFloat (F (2 ^ 1073)) "0.5".
Definition one_and_a_half : pyval := PFloat (F (3 * 2 ^ 1073)) "1.5".

(** A configuration with one setting under [sync.gmt]. *)
Definition gmt_cfg (name : string) (v : pyval) : pyval :=
  PDict [("sync", PDict [("gmt", PDict [(name, v)])])].

(** ** The canonical key as the design states it *)

(** The identifiers the resolver reads: [item.get("ids") or {}]. *)
Definition ids_of (item : dict) : pyval :=
  py_or (dict_get item "ids" PNone) (PDict []).

(** The first name of a priority list whose identifier is present and
    non-empty, with its value. *)
Fixpoint first_id (ids : dict) (keys : list string) : option (string * pyval) :=
  match keys with
  | [] => None
  | k :: rest =>
      match lookup k ids with
      | Some v => if py_truthy v then Some (k, v) else first_id ids rest
      | None => first_id ids rest
      end
  end.


(** The text of a value that is not a mapping: [None], a boolean, a
    text, a float, or an [int] of at most 4300 digits. *)
Definition plain_text (v : pyval) : option string :=
  match v with
  | PNone => Some "None"
  | PBool true => Some "True"
  | PBool false => Some "False"
  | PInt z => match int_text z with Ok s => Some s | Raise _ => None end
  | PFloat _ text => Some text
  | PStr s => Some s
  | PDict _ => None
  end.


(** An [int] of 4301 digits. *)
Definition too_long : Z := 10 ^ 4300.

(** ** Vocabulary for the statements about the predicate *)

(** The store does not offer the capability: the attribute is missing, is
    not a method, or raises [AttributeError] when read. *)
Definition unsupported {F} (a : attr F) : Prop :=
  match a with
  | Missing | Plain _ | Faulty AttributeError => True
  | _ => False
  end.

(** Reading the attribute raises something else than [AttributeError],
    or it is a method that raises whatever its arguments. *)
Definition always_raises {X} (a : attr (X -> result pyval)) : Prop :=
  match a with
  | Faulty AttributeError => False
  | Faulty _ => True
  | Method f => forall x, exists e, f x = Raise e
  | _ => False
  end.

(** Reading the attribute raises, or it is a method that raises whatever
    its arguments. *)
Definition faulty {X} (a : attr (X -> result pyval)) : Prop :=
  match a with
  | Faulty _ => True
  | Method f => forall x, exists e, f x = Raise e
  | _ => False
  end.

(** The configuration that [_cfg_from_store] hands to the TTL resolver. *)
Definition policy_cfg (store : Store) : pyval :=
  match answer (_cfg_from_store store) with Ok v => v | Raise _ => PNone end.

(** The calls that [_cfg_from_store] makes on the store. *)
Definition cfg_log (store : Store) : list call := calls (_cfg_from_store store).

(** The TTL of a run, or the exception of its resolution. *)
Definition ttl_in_force (store : Store) (feat : string) (ttl_sec : option Z) : result Z :=
  ttl_or ttl_sec (get_quarantine_ttl_sec (policy_cfg store) (Some feat)).

(** What line 174 and line 182 make of a timestamp value. *)
Definition stamp_outcome (v : pyval) (ttl : Z) (now : float) : result bool :=
  match py_int v with
  | Raise e => Raise e
  | Ok z => elapsed_lt now z ttl
  end.

(** The decision drawn from a timestamp value; an exception is no
    suppression. *)
Definition stamp_decision (v : pyval) (ttl : Z) (now : float) : bool :=
  match stamp_outcome v ttl now with Ok b => b | Raise _ => false end.

(** The decision that line 180 to 182 draw from a record. *)
Definition record_decision (rec : pyval) (ttl : Z) (now : float) : bool :=
  match rec with
  | PDict d =>
      match lookup "ts" d with
      | Some v => stamp_decision v ttl now
      | None => false
      end
  | _ => false
  end.

(** A timestamp that cannot be read: [int] refuses it, or gives a number
    too large for a float. *)
Definition malformed_ts (v : pyval) : Prop :=
  v <> PNone /\ forall ttl now, exists e, stamp_outcome v ttl now = Raise e.

(** The store has no last-negative timestamp to give for a query. *)
Definition no_timestamp (store : Store) (q : query_args) : Prop :=
  match last_negative_ts store with
  | Missing | Plain _ | Faulty AttributeError => True
  | Method last_ts => last_ts q = Ok PNone
  | Faulty _ => False
  end.

(** Numbers that a float holds exactly, with room for a sum of two. *)
Definition exact (z : Z) : Prop := Z.abs z < 2 ^ 52.

(** ** Sample stores *)

(** A store with no attribute at all. *)
Definition bare_store : Store :=
  {| cfg := Missing; config := Missing; get_config := Missing;
     should_suppress_by_key := Missing; last_negative_ts := Missing; get := Missing |}.

(** A store whose every capability raises. *)
Definition broken_store : Store :=
  {| cfg := Method (fun _ => Raise (OtherError "ConnectionError"));
     config := Method (fun _ => Raise (OtherError "ConnectionError"));
     get_config := Method (fun _ => Raise (OtherError "ConnectionError"));
     should_suppress_by_key := Method (fun _ => Raise (OtherError "ConnectionError"));
     last_negative_ts := Method (fun _ => Raise (OtherError "ConnectionError"));
     get := Method (fun _ => Raise (OtherError "ConnectionError")) |}.

(** A store whose configuration accessor raises and whose direct
    predicate answers [True]. *)
Definition flaky_cfg_store : Store :=
  {| cfg := Method (fun _ => Raise (OtherError "ConnectionError"));
     config := Missing; get_config := Missing;
     should_suppress_by_key := Method (fun _ => Ok (PBool true));
     last_negative_ts := Missing; get := Missing |}.

(** A store with the direct predicate and the generic lookup. *)
Definition predicate_store (verdict : pyval) : Store :=
  {| cfg := Missing; config := Missing; get_config := Missing;
     should_suppress_by_key := Method (fun _ => Ok verdict);
     last_negative_ts := Missing;
     get := Method (fun _ => Ok (PDict [("ts", PInt 0)])) |}.

(** A store with the timestamp lookup and the generic lookup. *)
Definition ts_store (ts rec : pyval) : Store :=
  {| cfg := Missing; config := Missing; get_config := Missing;
     should_suppress_by_key := Missing;
     last_negative_ts := Method (fun _ => Ok ts);
     get := Method (fun _ => Ok rec) |}.

(** A store with the generic lookup only. *)
Definition record_store (rec : pyval) : Store :=
  {| cfg := Missing; config := Missing; get_config := Missing;
     should_suppress_by_key := Missing; last_negative_ts := Missing;
     get := Method (fun _ => Ok rec) |}.

(** A store whose direct predicate is a property raising
    [AttributeError], with a timestamp lookup behind it. *)
Definition hidden_predicate_store (ts : pyval) : Store :=
  {| cfg := Missing; config := Missing; get_config := Missing;
     should_suppress_by_key := Faulty AttributeError;
     last_negative_ts := Method (fun _ => Ok ts);
     get := Missing |}.

(** A store whose configuration holds a setting under [sync.gmt]. *)
Definition configured_store (name : string) (v : pyval) (verdict : pyval) : Store :=
  {| cfg := Plain (gmt_cfg name v); config := Missing; get_config := Missing;
     should_suppress_by_key := Method (fun _ => Ok verdict);
     last_negative_ts := Missing; get := Missing |}.

Definition matrix : dict := [("type", PStr "movie"); ("ids", PDict [("tmdb", PInt 603)])].
Definition rate_ratings : scope_arg := ScopeObj {| scope_list := ratings; scope_dim := rate |}.
Definition add_watchlist : scope_arg :=
  ScopeVal (PDict [("list", PStr "Watchlist"); ("dim", PStr "ADD")]).

(** ** Vocabulary for the configuration lookup *)

(** The attribute is a method. *)
Definition is_method {F} (a : attr F) : bool :=
  match a with Method _ => true | _ => false end.

(** An accessor that [_cfg_from_store] passes over: missing, raising when
    read or when called, or a plain value that is not a [dict]. *)
Definition passed_over (a : attr (unit -> result pyval)) : Prop :=
  match a with
  | Missing | Faulty _ => True
  | Plain v => is_mapping v = false
  | Method f => exists e, f tt = Raise e
  end.

(** The store without its [cfg] attribute. *)
Definition without_cfg (store : Store) : Store :=
  {| cfg := Missing; config := config store; get_config := get_config store;
     should_suppress_by_key := should_suppress_by_key store;
     last_negative_ts := last_negative_ts store; get := get store |}.

(** A store whose [cfg()] answers [None] and whose [config] holds a
    seconds override. *)
Definition shadowed_cfg_store : Store :=
  {| cfg := Method (fun _ => Ok PNone);
     config := Plain precedence_cfg;
     get_config := Missing;
     should_suppress_by_key := Missing; last_negative_ts := Missing; get := Missing |}.

(** ** Vocabulary for the suppression window *)

(** The TTL of a run, read off its scope argument; a refused scope has
    none and the run ends before any TTL is needed. *)
Definition run_ttl (store : Store) (scope : scope_arg) (ttl_sec : option Z) : result Z :=
  match _coerce_scope scope with
  | Ok (feat, _) => ttl_in_force store feat ttl_sec
  | Raise e => Raise e
  end.

(** The store with the configuration accessors of another. *)
Definition with_config_of (other store : Store) : Store :=
  {| cfg := cfg other; config := config other; get_config := get_config other;
     should_suppress_by_key := should_suppress_by_key store;
     last_negative_ts := last_negative_ts store; get := get store |}.

(** ** Sample evaluations *)

Example py_str_int : py_str (PInt 603) = Ok "603".
Proof. reflexivity. Qed.
Example py_str_dict :
  py_str (PDict [("a", PInt 1); ("b", PStr "x"); ("c", PNone)])
  = Ok "{'a': 1, 'b': 'x', 'c': None}".
Proof. reflexivity. Qed.
Example py_str_too_long : py_str (PInt too_long) = Raise ValueError.
Proof. vm_compute. reflexivity. Qed.
Example py_int_str : py_int (PStr " -1_000 ") = Ok (-1000).
Proof. reflexivity. Qed.
Example py_int_bad : py_int (PStr "1__0") = Raise ValueError.
Proof. reflexivity. Qed.
Example py_int_float : py_int one_and_a_half = Ok 1 /\ py_int nan = Raise ValueError.
Proof. split; vm_compute; reflexivity. Qed.
Example strip_ex : strip "  The  Matrix  " = "The  Matrix".
Proof. reflexivity. Qed.
Example float_of_int_rounds :
  float_of_int (2 ^ 53 + 1) = Ok (seconds (2 ^ 53)) /\
  float_of_int (2 ^ 1024) = Raise OverflowError.
Proof. split; vm_compute; reflexivity. Qed.
Example canonical_key_ex :
  canonical_key [("ids", PDict [("imdb", PStr "TT0133093"); ("tmdb", PInt 603)])]
  = Ok "tmdb:603".
Proof. reflexivity. Qed.
Example canonical_key_empty : canonical_key [] = Ok "|title:|year:".
Proof. reflexivity. Qed.
Example canonical_key_fb :
  canonical_key [("type", PStr "Movie"); ("title", PStr " The Matrix "); ("year", PInt 1999)]
  = Ok "movie|title:the matrix|year:1999".
Proof. reflexivity. Qed.
Example key_fault_is_absorbed :
  should_suppress_write canonical_key (predicate_store (PBool true)) [("type", PInt 5)]
    rate_ratings None None (seconds 1000) = ([], Ok false).
Proof. reflexivity. Qed.
Example malformed_record_is_absorbed :
  answer (should_suppress_write canonical_key (record_store (PDict [("ts", PNone)])) matrix
            rate_ratings None None (seconds 1000)) = Ok false.
Proof. reflexivity. Qed.
Example one_day_old_unrate :
  answer (should_suppress_write canonical_key (ts_store (PInt (1000000 - 86400)) PNone)
            matrix rate_ratings None None (seconds 1000000)) = Ok true.
Proof. vm_compute. reflexivity. Qed.
Example four_days_old_unrate :
  answer (should_suppress_write canonical_key (ts_store (PInt (1000000 - 4 * 86400)) PNone)
            matrix rate_ratings None None (seconds 1000000)) = Ok false.
Proof. vm_compute. reflexivity. Qed.
Example hidden_predicate_falls_through :
  answer (should_suppress_write canonical_key (hidden_predicate_store (PInt 999)) matrix
            rate_ratings None None (seconds 1000)) = Ok true.
Proof. vm_compute. reflexivity. Qed.
Example opposing_upper : opposing (Some "ADD") = "remove".
Proof. reflexivity. Qed.
Example is_negative_ex : is_negative (Some "Unrate") = true /\ is_negative (Some "rate") = false.
Proof. split; reflexivity. Qed.

(** ** Text lemmas *)

Lemma lower_char_idem (c : ascii) : lower_char (lower_char c) = lower_char c.
Proof.
  destruct c as [b0 b1 b2 b3 b4 b5 b6 b7];
    destruct b0, b1, b2, b3, b4, b5, b6, b7; reflexivity.
Qed.

Lemma lower_idem (s : string) : lower (lower s) = lower s.
Proof.
  induction s as [|c r IH]; simpl; [reflexivity|].
  now rewrite lower_char_idem, IH.
Qed.

Lemma table_get_miss (t : list (string * string)) (k default : string) :
  (forall k' v, In (k', v) t -> k' <> k) -> table_get t k default = default.
Proof.
  induction t as [|[k' v] rest IH]; simpl; intros H; [reflexivity|].
  destruct (String.eqb_spec k' k) as [E|_].
  - exfalso. exact (H k' v (or_introl eq_refl) E).
  - apply IH. intros k2 v2 Hin. apply (H k2 v2). now right.
Qed.

(** ** Scope and operation model *)

Lemma opposing_dim_twice (d : ScopeDim) :
  opposing (Some (opposing (Some (ScopeDim_str d)))) = ScopeDim_str d.
Proof. destruct d; reflexivity. Qed.

Lemma opposing_lower (s : string) : opposing (Some s) = opposing (Some (lower s)).
Proof. unfold opposing; simpl. now rewrite lower_idem. Qed.

(** C8, as the code has it.  [opposing] is total; on the six dimensions it
    swaps add/remove, rate/unrate and scrobble/unscrobble and is an
    involution; it reads its argument in lower case, so a dimension in any
    letter case comes back, after two applications, in lower case; and an
    argument that is none of the six comes back lower-cased, which is the
    argument itself only when it was already in lower case. *)
Theorem opposing_involutive_lowercasing :
  (opposing (Some "add") = "remove" /\ opposing (Some "remove") = "add" /\
   opposing (Some "rate") = "unrate" /\ opposing (Some "unrate") = "rate" /\
   opposing (Some "scrobble") = "unscrobble" /\ opposing (Some "unscrobble") = "scrobble") /\
  (forall d : ScopeDim, opposing (Some (opposing (Some (ScopeDim_str d)))) = ScopeDim_str d) /\
  (forall (s : string) (d : ScopeDim),
      lower s = ScopeDim_str d ->
      opposing (Some (opposing (Some s))) = ScopeDim_str d) /\
  (forall op : option string,
      (forall d : ScopeDim, lower (or_empty op) <> ScopeDim_str d) ->
      opposing op = lower (or_empty op)) /\
  opposing None = EmptyString.
Proof.
  split; [repeat split; reflexivity|].
  split; [exact opposing_dim_twice|].
  split.
  - intros s d E. rewrite (opposing_lower s), E. apply opposing_dim_twice.
  - split; [|reflexivity].
    intros op H. unfold opposing. apply table_get_miss.
    intros k' v Hin E. simpl in Hin.
    destruct Hin as [Hin|[Hin|[Hin|[Hin|[Hin|[Hin|[]]]]]]];
      injection Hin as Hk _; rewrite <- Hk in E.
    + exact (H add (eq_sym E)).
    + exact (H remove (eq_sym E)).
    + exact (H rate (eq_sym E)).
    + exact (H unrate (eq_sym E)).
    + exact (H scrobble (eq_sym E)).
    + exact (H unscrobble (eq_sym E)).
Qed.

Lemma opposing_involutive_lowercasing_witness :
  opposing (Some (opposing (Some "UnRate"))) = "unrate" /\
  opposing (Some "Foo") = "foo".
Proof.
  destruct opposing_involutive_lowercasing as (_ & _ & Hcase & Hunk & _).
  split.
  - apply (Hcase "UnRate" unrate). reflexivity.
  - apply (Hunk (Some "Foo")). intros d; destruct d; discriminate.
Defined.

(** C8, where it fails as written: an argument that is none of the six
    dimensions is not returned unchanged when it has an upper-case letter. *)
Lemma opposing_unrecognized_not_unchanged :
  opposing (Some "Foo") = "foo" /\ opposing (Some "Foo") <> "Foo".
Proof. split; [reflexivity|discriminate]. Qed.

(** ** Negative event normalizer *)

(** C10.  Whatever the feature and the verb, present or not, the dimension
    that [negative_event_key] gives is classified negative by
    [is_negative], and it does not depend on the verb. *)
Theorem negative_event_key_is_negative :
  forall feature op op' : option string,
    is_negative (Some (negative_event_key feature op)) = true /\
    negative_event_key feature op = negative_event_key feature op'.
Proof.
  intros feature op op'. unfold negative_event_key.
  destruct (String.eqb (lower (or_empty feature)) "ratings");
    [split; reflexivity|].
  destruct (String.eqb (lower (or_empty feature)) "history"); split; reflexivity.
Qed.

(** ** TTL policy resolver *)

Lemma override_value_positive_int (v : pyval) : override_value v = positive_int v.
Proof.
  destruct v as [|[|]|z|x t|s|d]; try reflexivity.
Qed.

Lemma override_value_pos (v : pyval) (z : Z) : override_value v = Ok (Some z) -> 0 < z.
Proof.
  destruct v as [|[|]|n|x t|s|d]; simpl; try discriminate.
  - intros E; injection E as <-; lia.
  - destruct (Z.ltb_spec 0 n); [intros E; injection E as <-; assumption|discriminate].
  - destruct (int_of_float x) as [n|e]; [|discriminate].
    destruct (Z.ltb_spec 0 n); [intros E; injection E as <-; assumption|discriminate].
Qed.

Lemma override_value_total (v : pyval) :
  has_whole_part v = true -> exists o, override_value v = Ok o.
Proof.
  destruct v as [|[|]|n|x t|s|d]; simpl; intros H; try (eexists; reflexivity).
  destruct x; simpl in *; try discriminate; eexists; reflexivity.
Qed.

Lemma days_get_default_days (feat : string) : days_get defaults_days feat 7 = default_days feat.
Proof.
  unfold default_days, defaults_days, days_get.
  rewrite (String.eqb_sym "watchlist" feat), (String.eqb_sym "ratings" feat),
    (String.eqb_sym "history" feat), (String.eqb_sym "playlists" feat).
  reflexivity.
Qed.

Lemma default_days_pos (feat : string) : 0 < default_days feat.
Proof.
  unfold default_days.
  repeat match goal with |- context [String.eqb ?a ?b] => destruct (String.eqb a b) end; lia.
Qed.

Lemma get_quarantine_ttl_sec_refines (cfg : pyval) (feature : option string) :
  get_quarantine_ttl_sec cfg feature = quarantineTTLSeconds cfg feature.
Proof.
  unfold get_quarantine_ttl_sec, quarantineTTLSeconds, or_else.
  rewrite !override_value_positive_int.
  repeat match goal with
         | |- context [positive_int ?v] => destruct (positive_int v) as [[?|]|?]
         end; try reflexivity; try (f_equal; lia).
  rewrite days_get_default_days. f_equal. lia.
Qed.

Lemma quarantineTTLSeconds_pos (cfg : pyval) (feature : option string) (n : Z) :
  quarantineTTLSeconds cfg feature = Ok n -> 0 < n.
Proof.
  unfold quarantineTTLSeconds, or_else.
  repeat match goal with
         | |- context [override_value ?v] =>
             let E := fresh "E" in
             destruct (override_value v) as [[?|]|?] eqn:E;
             [apply override_value_pos in E| |]
         end; intros H; try discriminate H; injection H as <-; try lia.
  pose proof (default_days_pos (lower (or_empty feature))). lia.
Qed.

Lemma quarantineTTLSeconds_total (cfg : pyval) (feature : option string) :
  (forall path, has_whole_part (_read cfg path) = true) ->
  exists n, quarantineTTLSeconds cfg feature = Ok n.
Proof.
  intros H. unfold quarantineTTLSeconds, or_else.
  repeat match goal with
         | |- context [override_value (_read cfg ?p)] =>
             let E := fresh "E" in
             destruct (override_value_total (_read cfg p) (H p)) as ([?|] & E);
             rewrite E
         end; eexists; reflexivity.
Qed.

(** C6, as the code has it.  The resolver takes the first that applies
    of: the per-feature seconds override, the per-feature days override
    times 86400, the global days override times 86400, the static default
    (watchlist 7 days, ratings 3, history 2, playlists 7, any other feature
    7).  An override applies through its whole part [int(v)]: it must be a
    number (an [int], a boolean or a float) whose whole part is strictly
    positive, and it counts for that whole part; a value that is not a
    number, or whose whole part is zero or negative, is skipped.  Whenever
    the resolver returns, the result is a strictly positive integer, and
    it returns whenever no setting is a float without a whole part (NaN or
    an infinity), the only values on which it raises.  With global days 5,
    ratings days 2 and ratings seconds 10 the result for ratings is 10; an
    empty configuration gives 172800 for history. *)
Theorem get_quarantine_ttl_sec_first_match :
  forall (cfg : pyval) (feature : option string),
    get_quarantine_ttl_sec cfg feature = quarantineTTLSeconds cfg feature /\
    (forall n, get_quarantine_ttl_sec cfg feature = Ok n -> 0 < n) /\
    ((forall path, has_whole_part (_read cfg path) = true) ->
     exists n, get_quarantine_ttl_sec cfg feature = Ok n /\ 0 < n) /\
    (forall v : pyval,
        override_value v = Ok None <->
        (is_int_or_float v = false \/ exists z, py_int v = Ok z /\ z <= 0)) /\
    (forall (v : pyval) (e : exn),
        override_value v = Raise e -> has_whole_part v = false) /\
    (default_days "watchlist" = 7 /\ default_days "ratings" = 3 /\
     default_days "history" = 2 /\ default_days "playlists" = 7 /\
     forall feat : string, default_days feat = 7 \/ default_days feat = 3 \/ default_days feat = 2) /\
    (forall feat : string,
        feat <> "ratings" -> feat <> "history" -> default_days feat = 7) /\
    get_quarantine_ttl_sec precedence_cfg (Some "ratings") = Ok 10 /\
    get_quarantine_ttl_sec (PDict []) (Some "history") = Ok 172800 /\
    get_quarantine_ttl_sec PNone (Some "history") = Ok (2 * 24 * 3600).
Proof.
  intros cfg feature.
  split; [apply get_quarantine_ttl_sec_refines|].
  split; [intros n; rewrite get_quarantine_ttl_sec_refines; apply quarantineTTLSeconds_pos|].
  split.
  { intros H. rewrite get_quarantine_ttl_sec_refines.
    destruct (quarantineTTLSeconds_total cfg feature H) as (n & E).
    exists n. split; [exact E|exact (quarantineTTLSeconds_pos _ _ _ E)]. }
  split.
  { intros v; destruct v as [|[|]|z|x t|s|d]; simpl; split; intros H;
      try reflexivity; try discriminate; try (now left).
    - destruct H as [H|(z & H & Hz)]; [discriminate|]. injection H as <-. lia.
    - right. exists 0. split; [reflexivity|lia].
    - right. exists z. split; [reflexivity|].
      destruct (Z.ltb_spec 0 z); [discriminate|assumption].
    - destruct H as [H|(z' & H & Hz)]; [discriminate|]. injection H as <-.
      destruct (Z.ltb_spec 0 z); [lia|reflexivity].
    - right. destruct (int_of_float x) as [z|e]; [|discriminate].
      exists z. split; [reflexivity|].
      destruct (Z.ltb_spec 0 z); [discriminate|assumption].
    - destruct H as [H|(z & H & Hz)]; [discriminate|]. rewrite H.
      destruct (Z.ltb_spec 0 z); [lia|reflexivity]. }
  split.
  { intros v e; destruct v as [|[|]|z|x t|s|d]; simpl; try discriminate.
    destruct x; simpl; try discriminate; reflexivity. }
  split.
  { repeat split; try reflexivity.
    intros feat; unfold default_days.
    repeat match goal with |- context [String.eqb ?a ?b] => destruct (String.eqb a b) end;
      auto. }
  split.
  { intros feat Hr Hh. unfold default_days.
    destruct (String.eqb feat "watchlist"); [reflexivity|].
    destruct (String.eqb_spec feat "ratings"); [contradiction|].
    destruct (String.eqb_spec feat "history"); [contradiction|].
    destruct (String.eqb feat "playlists"); reflexivity. }
  repeat split; reflexivity.
Qed.

Lemma get_quarantine_ttl_sec_first_match_witness :
  exists n, get_quarantine_ttl_sec PNone (Some "playlists") = Ok n /\ 0 < n.
Proof.
  destruct (get_quarantine_ttl_sec_first_match PNone (Some "playlists")) as (_ & _ & H & _).
  apply H. intros path. destruct path; reflexivity.
Defined.

(** C6, where it fails as written: a seconds override that is NaN makes
    the resolver raise; a seconds override of 0.5 is positive and yet
    skipped; a days override of 1.5 counts for one day, not for 1.5 times
    86400 seconds. *)
Lemma ttl_float_overrides :
  get_quarantine_ttl_sec (gmt_cfg "ratings_sec" nan) (Some "ratings") = Raise ValueError /\
  get_quarantine_ttl_sec (gmt_cfg "ratings_sec" half) (Some "ratings") = Ok (3 * 86400) /\
  get_quarantine_ttl_sec (gmt_cfg "ratings_days" one_and_a_half) (Some "ratings") = Ok 86400.
Proof. split; [|split]; vm_compute; reflexivity. Qed.
(** ** Canonical key resolver *)

Lemma plain_text_str (v : pyval) (s : string) : plain_text v = Some s -> py_str v = Ok s.
Proof.
  destruct v as [|[|]|z|x t|s'|d]; simpl; try discriminate;
    try (intros E; injection E as <-; reflexivity).
  destruct (int_text z); [intros E; injection E as <-; reflexivity|discriminate].
Qed.

Lemma id_loop_first_id (ids : dict) (keys : list string) (item : dict) :
  id_loop (PDict ids) keys item =
  match first_id ids keys with
  | Some (k, v) =>
      match py_str v with
      | Raise e => Raise e
      | Ok s => Ok (k ++ ":" ++ lower s)
      end
  | None => fallback_key item
  end.
Proof.
  induction keys as [|k rest IH]; simpl; [reflexivity|].
  unfold dict_get. destruct (lookup k ids) as [v|]; simpl.
  - destruct (py_truthy v); [reflexivity|exact IH].
  - exact IH.
Qed.

Lemma canonical_key_by_first_id (item : dict) (ids : dict) :
  ids_of item = PDict ids ->
  canonical_key item =
  match first_id ids _ID_KEYS with
  | Some (k, v) =>
      match py_str v with
      | Raise e => Raise e
      | Ok s => Ok (k ++ ":" ++ lower s)
      end
  | None => fallback_key item
  end.
Proof.
  intros H. unfold canonical_key. fold (ids_of item). rewrite H. apply id_loop_first_id.
Qed.









(** ** Rounding is monotone *)

Lemma round_exponent_bounds (a : Z) :
  0 <= a -> 0 <= Z.max 0 (Z.log2 a - 52) <= Z.log2 a.
Proof. intros H. pose proof (Z.log2_nonneg a). lia. Qed.

Lemma round_mag_nonneg (a : Z) : 0 <= a -> 0 <= round_mag a.
Proof.
  intros H. unfold round_mag.
  set (k := Z.max 0 (Z.log2 a - 52)).
  assert (Hp : 0 < 2 ^ k) by (apply Z.pow_pos_nonneg; unfold k; lia).
  assert (Hq : 0 <= a / 2 ^ k) by (apply Z.div_pos; lia).
  apply Z.mul_nonneg_nonneg; [|lia].
  match goal with |- context [if ?c then _ else _] => destruct c end; lia.
Qed.

Lemma round_mag_round_at (a : Z) : round_mag a = round_at (Z.max 0 (Z.log2 a - 52)) a.
Proof. reflexivity. Qed.

Lemma round_at_mono (k a b : Z) : 0 <= k -> a <= b -> round_at k a <= round_at k b.
Proof.
  intros Hk Hab. unfold round_at.
  assert (Hp : 0 < 2 ^ k) by (apply Z.pow_pos_nonneg; lia).
  pose proof (Z.div_mod a (2 ^ k) ltac:(lia)) as Ea.
  pose proof (Z.div_mod b (2 ^ k) ltac:(lia)) as Eb.
  pose proof (Z.mod_pos_bound a (2 ^ k) Hp) as Ra.
  pose proof (Z.mod_pos_bound b (2 ^ k) Hp) as Rb.
  assert (Hq : a / 2 ^ k <= b / 2 ^ k) by (apply Z.div_le_mono; lia).
  set (qa := a / 2 ^ k) in *. set (qb := b / 2 ^ k) in *.
  set (ra := a mod 2 ^ k) in *. set (rb := b mod 2 ^ k) in *.
  apply Z.mul_le_mono_nonneg_r; [lia|].
  destruct (Z.eq_dec qa qb) as [E|N].
  - assert (Hr : ra <= rb) by nia. rewrite <- E.
    destruct (Z.ltb_spec (2 ^ k) (2 * ra)); cbn [orb andb].
    + destruct (Z.ltb_spec (2 ^ k) (2 * rb)); cbn [orb andb]; lia.
    + destruct (Z.eqb_spec (2 * ra) (2 ^ k)); cbn [orb andb].
      * destruct (Z.odd qa); cbn [orb andb].
        -- destruct (Z.ltb_spec (2 ^ k) (2 * rb)); cbn [orb andb]; [lia|].
           destruct (Z.eqb_spec (2 * rb) (2 ^ k)); cbn [orb andb]; lia.
        -- destruct ((2 ^ k <? 2 * rb) || ((2 * rb =? 2 ^ k) && false)); lia.
      * destruct ((2 ^ k <? 2 * rb) || ((2 * rb =? 2 ^ k) && Z.odd qa)); lia.
  - destruct ((2 ^ k <? 2 * ra) || ((2 * ra =? 2 ^ k) && Z.odd qa));
      destruct ((2 ^ k <? 2 * rb) || ((2 * rb =? 2 ^ k) && Z.odd qb)); lia.
Qed.

Lemma round_mag_upper (a : Z) : 0 <= a -> round_mag a <= 2 ^ (Z.log2 a + 1).
Proof.
  intros H. unfold round_mag.
  pose proof (round_exponent_bounds a H) as Hk.
  set (k := Z.max 0 (Z.log2 a - 52)) in *.
  assert (Hp : 0 < 2 ^ k) by (apply Z.pow_pos_nonneg; lia).
  assert (Hlt : a < 2 ^ (Z.log2 a + 1)).
  { destruct (Z.eq_dec a 0) as [->|]; [reflexivity|].
    replace (Z.log2 a + 1) with (Z.succ (Z.log2 a)) by lia.
    apply Z.log2_spec. lia. }
  assert (Hs : 2 ^ (Z.log2 a + 1) = 2 ^ (Z.log2 a + 1 - k) * 2 ^ k).
  { rewrite <- Z.pow_add_r by lia. f_equal. lia. }
  rewrite Hs in *.
  assert (Hq : a / 2 ^ k < 2 ^ (Z.log2 a + 1 - k)).
  { apply Z.div_lt_upper_bound; [lia|]. lia. }
  apply Z.mul_le_mono_nonneg_r; [lia|].
  match goal with |- context [if ?c then _ else _] => destruct c end; lia.
Qed.

Lemma round_mag_lower (b : Z) : 0 < b -> 2 ^ Z.log2 b <= round_mag b.
Proof.
  intros H. unfold round_mag.
  pose proof (round_exponent_bounds b ltac:(lia)) as Hk.
  set (k := Z.max 0 (Z.log2 b - 52)) in *.
  assert (Hp : 0 < 2 ^ k) by (apply Z.pow_pos_nonneg; lia).
  assert (Hle : 2 ^ Z.log2 b <= b) by (apply Z.log2_spec; lia).
  assert (Hs : 2 ^ Z.log2 b = 2 ^ (Z.log2 b - k) * 2 ^ k).
  { rewrite <- Z.pow_add_r by lia. f_equal. lia. }
  rewrite Hs in *.
  assert (Hq : 2 ^ (Z.log2 b - k) <= b / 2 ^ k).
  { apply Z.div_le_lower_bound; [lia|]. lia. }
  apply Z.mul_le_mono_nonneg_r; [lia|].
  match goal with |- context [if ?c then _ else _] => destruct c end; lia.
Qed.

Lemma round_mag_mono (a b : Z) : 0 <= a -> a <= b -> round_mag a <= round_mag b.
Proof.
  intros Ha Hab.
  pose proof (Z.log2_le_mono a b Hab) as Hl.
  destruct (Z.eq_dec (Z.log2 a) (Z.log2 b)) as [E|N].
  - rewrite !round_mag_round_at, E. apply round_at_mono; lia.
  - assert (Hb : 0 < b).
    { destruct (Z.eq_dec b 0) as [->|]; [|lia].
      pose proof (Z.log2_nonneg a). simpl in *. lia. }
    pose proof (round_mag_upper a Ha). pose proof (round_mag_lower b Hb).
    assert (2 ^ (Z.log2 a + 1) <= 2 ^ Z.log2 b).
    { apply Z.pow_le_mono_r; [lia|]. lia. }
    lia.
Qed.

Lemma rounded_mono (d d' : Z) : d <= d' -> rounded d <= rounded d'.
Proof.
  intros H. unfold rounded.
  pose proof (round_mag_nonneg (Z.abs d) (Z.abs_nonneg d)).
  pose proof (round_mag_nonneg (Z.abs d') (Z.abs_nonneg d')).
  destruct (Z.lt_trichotomy d 0) as [Hd|[->|Hd]];
    destruct (Z.lt_trichotomy d' 0) as [Hd'|[->|Hd']]; try lia.
  - rewrite !Z.sgn_neg by lia.
    pose proof (round_mag_mono (Z.abs d') (Z.abs d) (Z.abs_nonneg d') ltac:(lia)). lia.
  - rewrite !Z.sgn_pos by lia.
    pose proof (round_mag_mono (Z.abs d) (Z.abs d') (Z.abs_nonneg d) ltac:(lia)). lia.
Qed.

Lemma flt_int_round_scaled (d t : Z) :
  flt_int (round_scaled d) t
  = if overflow_threshold <=? round_mag (Z.abs d) then d <? 0 else rounded d <? scaled t.
Proof.
  unfold round_scaled, rounded.
  destruct (overflow_threshold <=? round_mag (Z.abs d)); reflexivity.
Qed.

Lemma abs_rounded (d : Z) : Z.abs (rounded d) = round_mag (Z.abs d).
Proof.
  unfold rounded.
  pose proof (round_mag_nonneg (Z.abs d) (Z.abs_nonneg d)).
  destruct (Z.lt_trichotomy d 0) as [Hd|[->|Hd]].
  - rewrite Z.sgn_neg by lia. lia.
  - reflexivity.
  - rewrite Z.sgn_pos by lia. lia.
Qed.

Lemma rounded_sign (d : Z) : (d < 0 -> rounded d <= 0) /\ (0 <= d -> 0 <= rounded d).
Proof.
  unfold rounded.
  pose proof (round_mag_nonneg (Z.abs d) (Z.abs_nonneg d)).
  split; intros Hd.
  - rewrite Z.sgn_neg by lia. lia.
  - destruct (Z.eq_dec d 0) as [->|]; [change (Z.sgn 0) with 0; lia|].
    rewrite Z.sgn_pos by lia. lia.
Qed.

(** A difference that is not below the TTL stays so when it grows. *)
Lemma flt_int_round_scaled_mono (d d' t : Z) :
  d <= d' -> flt_int (round_scaled d) t = false -> flt_int (round_scaled d') t = false.
Proof.
  intros H. rewrite !flt_int_round_scaled, <- !abs_rounded.
  pose proof (rounded_mono d d' H) as Hm.
  pose proof (rounded_sign d) as [Sn Sp]. pose proof (rounded_sign d') as [Sn' Sp'].
  assert (Hth : 0 < overflow_threshold) by reflexivity.
  destruct (Z.leb_spec overflow_threshold (Z.abs (rounded d)));
    destruct (Z.leb_spec overflow_threshold (Z.abs (rounded d'))).
  - intros E. apply Z.ltb_ge in E. apply Z.ltb_ge. lia.
  - intros E. apply Z.ltb_ge in E. apply Z.ltb_ge. specialize (Sp E). lia.
  - intros E. apply Z.ltb_ge in E. apply Z.ltb_ge.
    destruct (Z.lt_ge_cases d' 0) as [Hd'|Hd']; [|lia].
    specialize (Sn' Hd'). assert (d < 0) by lia. specialize (Sn ltac:(lia)). lia.
  - intros E. apply Z.ltb_ge in E. apply Z.ltb_ge. lia.
Qed.

(** A difference that is not above zero is below every positive TTL. *)
Lemma flt_int_round_scaled_nonpos (d t : Z) :
  d <= 0 -> 0 < t -> flt_int (round_scaled d) t = true.
Proof.
  intros Hd Ht. rewrite flt_int_round_scaled, <- abs_rounded.
  assert (Hth : 0 < overflow_threshold) by reflexivity.
  assert (Hs : 0 < scaled t).
  { unfold scaled. assert (0 < 2 ^ 1074) by (apply Z.pow_pos_nonneg; lia). nia. }
  destruct (Z.leb_spec overflow_threshold (Z.abs (rounded d))).
  - apply Z.ltb_lt. destruct (Z.eq_dec d 0) as [->|]; [|lia].
    change (rounded 0) with 0 in *. simpl in *. lia.
  - apply Z.ltb_lt. destruct (Z.eq_dec d 0) as [->|].
    + change (rounded 0) with 0. lia.
    + pose proof (rounded_sign d) as [Sn _]. specialize (Sn ltac:(lia)). lia.
Qed.

Lemma flt_int_mono_ttl (x : float) (t t' : Z) :
  t <= t' -> flt_int x t = true -> flt_int x t' = true.
Proof.
  intros H. destruct x as [n| |s|]; simpl; try trivial.
  - intros E. apply Z.ltb_lt in E. apply Z.ltb_lt. unfold scaled in *.
    assert (0 < 2 ^ 1074) by (apply Z.pow_pos_nonneg; lia). nia.
  - intros E. apply Z.ltb_lt in E. apply Z.ltb_lt. lia.
Qed.
(** ** Float arithmetic on whole numbers of seconds *)

Lemma round_mag_scaled (t : Z) : 0 <= t < 2 ^ 53 -> round_mag (scaled t) = scaled t.
Proof.
  intros [H0 H1]. unfold round_mag, scaled.
  destruct (Z.eq_dec t 0) as [->|Hne]; [reflexivity|].
  assert (Ht : 0 < t) by lia.
  rewrite (Z.log2_mul_pow2 t 1074 Ht) by lia.
  assert (Hl : 0 <= Z.log2 t < 53).
  { split; [apply Z.log2_nonneg|]. apply Z.log2_lt_pow2; lia. }
  rewrite Z.max_r by lia.
  set (k := 1074 + Z.log2 t - 52).
  assert (Hk : 0 <= k <= 1074) by (unfold k; lia).
  assert (Hsplit : t * 2 ^ 1074 = t * 2 ^ (1074 - k) * 2 ^ k).
  { rewrite <- Z.mul_assoc, <- Z.pow_add_r by lia. do 2 f_equal. lia. }
  assert (Hp : 0 < 2 ^ k) by (apply Z.pow_pos_nonneg; lia).
  rewrite Hsplit, Z.div_mul, Z.mod_mul by lia.
  replace (2 * 0) with 0 by lia.
  destruct (Z.ltb_spec (2 ^ k) 0); [lia|].
  destruct (Z.eqb_spec 0 (2 ^ k)); [lia|]. reflexivity.
Qed.

Lemma scaled_lt_threshold (t : Z) : 0 <= t < 2 ^ 53 -> scaled t < overflow_threshold.
Proof.
  intros [H0 H1]. unfold scaled, overflow_threshold.
  replace 2098 with (1024 + 1074) by lia. rewrite Z.pow_add_r by lia.
  assert (0 < 2 ^ 1074) by (apply Z.pow_pos_nonneg; lia).
  assert (2 ^ 53 < 2 ^ 1024) by (apply Z.pow_lt_mono_r; lia).
  nia.
Qed.

Lemma round_scaled_exact (t : Z) : Z.abs t < 2 ^ 53 -> round_scaled (scaled t) = seconds t.
Proof.
  intros H. unfold round_scaled, seconds.
  assert (Habs : Z.abs (scaled t) = scaled (Z.abs t)).
  { unfold scaled. rewrite Z.abs_mul, (Z.abs_eq (2 ^ 1074)); [reflexivity|].
    apply Z.pow_nonneg. lia. }
  rewrite Habs, round_mag_scaled by lia.
  pose proof (scaled_lt_threshold (Z.abs t) ltac:(lia)) as Hlt.
  destruct (Z.leb_spec overflow_threshold (scaled (Z.abs t))); [lia|].
  f_equal. unfold scaled.
  assert (Hp : 0 < 2 ^ 1074) by (apply Z.pow_pos_nonneg; lia).
  rewrite Z.sgn_mul, (Z.sgn_pos (2 ^ 1074)) by lia.
  rewrite Z.mul_1_r, Z.mul_assoc. f_equal. lia.
Qed.

Lemma float_of_int_exact (z : Z) : Z.abs z < 2 ^ 53 -> float_of_int z = Ok (seconds z).
Proof.
  intros H. unfold float_of_int. now rewrite (round_scaled_exact z H).
Qed.

Lemma fsub_seconds (s z : Z) :
  Z.abs (s - z) < 2 ^ 53 -> fsub (seconds s) (seconds z) = seconds (s - z).
Proof.
  intros H. unfold seconds at 1 2, fsub.
  replace (scaled s - scaled z) with (scaled (s - z)) by (unfold scaled; lia).
  now apply round_scaled_exact.
Qed.

Lemma flt_int_seconds (s t : Z) : flt_int (seconds s) t = (s <? t).
Proof.
  unfold flt_int, seconds, scaled.
  assert (Hp : 0 < 2 ^ 1074) by (apply Z.pow_pos_nonneg; lia).
  destruct (Z.ltb_spec s t), (Z.ltb_spec (s * 2 ^ 1074) (t * 2 ^ 1074)); try reflexivity; nia.
Qed.

(** On whole numbers of seconds below [2^52], the float arithmetic of the
    TTL check is exact. *)
Lemma elapsed_lt_exact (s z ttl : Z) :
  exact s -> exact z -> elapsed_lt (seconds s) z ttl = Ok (s - z <? ttl).
Proof.
  unfold exact. intros Hs Hz. unfold elapsed_lt.
  assert (H52 : 2 ^ 53 = 2 * 2 ^ 52) by reflexivity.
  rewrite float_of_int_exact, fsub_seconds, flt_int_seconds by lia. reflexivity.
Qed.

(** ** Runs of the suppression predicate *)

Lemma cfg_attr_total (name : string) (a : attr (unit -> result pyval)) :
  exists lg r, cfg_attr name a = (lg, Ok r).
Proof.
  destruct a as [|e|v|f]; unfold cfg_attr; simpl.
  - now eexists _, _.
  - destruct e; now eexists _, _.
  - destruct (is_mapping v); now eexists _, _.
  - unfold invoke, bind. destruct (f tt); simpl; now eexists _, _.
Qed.

Lemma cfg_from_store_total (store : Store) :
  exists lg v, _cfg_from_store store = (lg, Ok v).
Proof.
  unfold _cfg_from_store, next.
  destruct (cfg_attr_total "cfg" (cfg store)) as (l1 & r1 & ->).
  destruct (cfg_attr_total "config" (config store)) as (l2 & r2 & ->).
  destruct (cfg_attr_total "get_config" (get_config store)) as (l3 & r3 & ->).
  destruct r1 as [v1|]; simpl; [now eexists _, _|].
  destruct r2 as [v2|]; simpl; [now eexists _, _|].
  destruct r3 as [v3|]; simpl; now eexists _, _.
Qed.

Lemma cfg_from_store_eq (store : Store) :
  _cfg_from_store store = (cfg_log store, Ok (policy_cfg store)).
Proof.
  unfold cfg_log, policy_cfg, calls, answer.
  destruct (cfg_from_store_total store) as (lg & v & ->). reflexivity.
Qed.

(** Past scope coercion, key computation and TTL resolution, a run is the
    configuration lookup followed by the capability probe; what the probe
    raises, or leaves undecided, is answered [False]. *)
Lemma should_suppress_write_run (resolver : dict -> result string) (store : Store)
    (entity : dict) (scope : scope_arg) (pair_id : option string) (ttl_sec : option Z)
    (now : float) (feat dim key : string) (ttl : Z) :
  _coerce_scope scope = Ok (feat, dim) ->
  resolver entity = Ok key ->
  ttl_in_force store feat ttl_sec = Ok ttl ->
  should_suppress_write resolver store entity scope pair_id ttl_sec now =
  let m := capability_probe store key feat (opposing (Some dim)) ttl pair_id now in
  ((cfg_log store ++ calls m)%list,
   Ok match answer m with Ok (Some b) => b | _ => false end).
Proof.
  intros Hs Hk Ht. unfold should_suppress_write, try_block.
  rewrite Hs, Hk, cfg_from_store_eq. unfold lift, bind.
  fold (ttl_in_force store feat ttl_sec). rewrite Ht.
  destruct (capability_probe store key feat (opposing (Some dim)) ttl pair_id now)
    as [l [[b|]|e]]; simpl; now rewrite !app_nil_r.
Qed.

(** A TTL resolution that raises ends the run after the configuration
    lookup, with [False]. *)
Lemma ttl_raise_false (resolver : dict -> result string) (store : Store)
    (entity : dict) (scope : scope_arg) (pair_id : option string) (ttl_sec : option Z)
    (now : float) (feat dim key : string) (e : exn) :
  _coerce_scope scope = Ok (feat, dim) ->
  resolver entity = Ok key ->
  ttl_in_force store feat ttl_sec = Raise e ->
  should_suppress_write resolver store entity scope pair_id ttl_sec now
  = (cfg_log store, Ok false).
Proof.
  intros Hs Hk Ht. unfold should_suppress_write, try_block.
  rewrite Hs, Hk, cfg_from_store_eq. unfold lift, bind.
  fold (ttl_in_force store feat ttl_sec). rewrite Ht. simpl.
  now rewrite !app_nil_r.
Qed.

Lemma getattr_unsupported {F} (a : attr F) :
  unsupported a -> exists a', getattr a = Ok a' /\ is_method a' = false.
Proof.
  destruct a as [|e|v|f]; simpl; intros H; try contradiction.
  - now exists Missing.
  - destruct e; try contradiction. now exists Missing.
  - now exists (Plain v).
Qed.

Lemma by_record_decision (store : Store) (q : query_args) (ttl : Z) (now : float)
    (getrec : query_args -> result pyval) (rec : pyval) :
  get store = Method getrec -> getrec q = Ok rec ->
  exists r, by_record store q ttl now = ([GetCall q], r) /\
            match r with Ok (Some b) => b | _ => false end = record_decision rec ttl now.
Proof.
  intros Hg Hr. unfold by_record, invoke, bind, lift. rewrite Hg. simpl. rewrite Hr.
  destruct rec as [| | | | |d]; simpl; try (eexists; split; reflexivity).
  unfold dict_has, dict_get, stamp_decision, stamp_outcome.
  destruct (lookup "ts" d) as [v|]; simpl.
  - destruct (py_int v) as [z|e]; simpl; [|eexists; split; reflexivity].
    destruct (elapsed_lt now z ttl) as [b|e]; simpl; eexists; split; reflexivity.
  - eexists; split; reflexivity.
Qed.

Lemma by_record_unsupported (store : Store) (q : query_args) (ttl : Z) (now : float) :
  unsupported (get store) -> by_record store q ttl now = ([], Ok None).
Proof.
  intros H. unfold by_record. destruct (getattr_unsupported _ H) as (a' & -> & Hm).
  destruct a'; try discriminate; reflexivity.
Qed.

Lemma by_predicate_unsupported (store : Store) (a : suppress_args) :
  unsupported (should_suppress_by_key store) -> by_predicate store a = ([], Ok None).
Proof.
  intros H. unfold by_predicate. destruct (getattr_unsupported _ H) as (a' & -> & Hm).
  destruct a'; try discriminate; reflexivity.
Qed.

Lemma by_last_ts_none (store : Store) (q : query_args) (ttl : Z) (now : float) :
  no_timestamp store q ->
  by_last_ts store q ttl now =
  (match last_negative_ts store with Method _ => [LastNegativeTsCall q] | _ => [] end,
   Ok None).
Proof.
  unfold by_last_ts, no_timestamp, invoke, bind, lift.
  destruct (last_negative_ts store) as [|e|v|f]; simpl; intros H; try reflexivity.
  - destruct e; try contradiction; reflexivity.
  - rewrite H. reflexivity.
Qed.

Lemma by_last_ts_some (store : Store) (q : query_args) (ttl : Z) (now : float)
    (last_ts : query_args -> result pyval) (ts : pyval) :
  last_negative_ts store = Method last_ts -> last_ts q = Ok ts -> ts <> PNone ->
  by_last_ts store q ttl now =
  ([LastNegativeTsCall q],
   match stamp_outcome ts ttl now with Ok b => Ok (Some b) | Raise e => Raise e end).
Proof.
  intros Hl Hq Hn. unfold by_last_ts, invoke, bind, lift, stamp_outcome.
  rewrite Hl. simpl. rewrite Hq.
  destruct ts as [|b|z|x t|s|d]; [now contradiction Hn| | | | |]; simpl;
    match goal with
    | |- context [elapsed_lt now ?z ttl] => destruct (elapsed_lt now z ttl); reflexivity
    | _ => idtac
    end; try reflexivity.
  - destruct (int_of_float x) as [z|e]; simpl; [|reflexivity].
    destruct (elapsed_lt now z ttl); reflexivity.
  - destruct (int_of_str s) as [z|]; simpl; [|reflexivity].
    destruct (elapsed_lt now z ttl); reflexivity.
Qed.

(** ** Capability tiering *)

(** C3, as the code has it.  Past scope coercion, key computation and TTL
    resolution the store is asked in this order.  A store with the direct
    predicate is asked through it alone, whatever else it offers, and its
    answer decides.  Without it (the attribute is missing, is not callable,
    or raises [AttributeError] when read), a store with the timestamp
    lookup is asked through that lookup, and a timestamp decides.  When
    that lookup gives no timestamp, or is not offered, the run goes on to
    the generic lookup if the store offers it, and the record decides;
    otherwise the answer is [False].  A store offering none of the three is
    not asked and the answer is [False]. *)
Theorem capability_probe_order :
  forall (resolver : dict -> result string) (store : Store) (entity : dict)
         (scope : scope_arg) (pair_id : option string) (ttl_sec : option Z) (now : float)
         (feat dim key : string) (ttl : Z),
    _coerce_scope scope = Ok (feat, dim) ->
    resolver entity = Ok key ->
    ttl_in_force store feat ttl_sec = Ok ttl ->
    let run := should_suppress_write resolver store entity scope pair_id ttl_sec now in
    let q := {| q_key := key; q_list := feat; q_dim := opposing (Some dim);
                q_pair_id := pair_id |} in
    let a := {| sa_key := key; sa_list := feat; sa_dim := opposing (Some dim);
                sa_ttl_sec := ttl; sa_pair_id := pair_id |} in
    let asked := match last_negative_ts store with
                 | Method _ => [LastNegativeTsCall q]
                 | _ => []
                 end in
    (forall pred, should_suppress_by_key store = Method pred ->
        calls run = (cfg_log store ++ [SuppressByKeyCall a])%list /\
        answer run = Ok match pred a with Ok r => py_truthy r | Raise _ => false end) /\
    (unsupported (should_suppress_by_key store) ->
       (forall last_ts ts,
           last_negative_ts store = Method last_ts -> last_ts q = Ok ts -> ts <> PNone ->
           calls run = (cfg_log store ++ [LastNegativeTsCall q])%list /\
           answer run = Ok (stamp_decision ts ttl now)) /\
       (no_timestamp store q ->
          (forall getrec rec,
              get store = Method getrec -> getrec q = Ok rec ->
              calls run = (cfg_log store ++ asked ++ [GetCall q])%list /\
              answer run = Ok (record_decision rec ttl now)) /\
          (unsupported (get store) ->
           calls run = (cfg_log store ++ asked)%list /\ answer run = Ok false)) /\
       (unsupported (last_negative_ts store) -> unsupported (get store) ->
        calls run = cfg_log store /\ answer run = Ok false)).
Proof.
  intros resolver store entity scope pair_id ttl_sec now feat dim key ttl Hs Hk Ht.
  intros run q a asked. subst run.
  rewrite (should_suppress_write_run _ _ _ _ _ _ _ _ _ _ _ Hs Hk Ht).
  unfold capability_probe. fold q. fold a. cbv zeta.
  split.
  { intros pred Hp. unfold by_predicate, next, invoke, bind, lift. rewrite Hp. simpl.
    destruct (pred a) as [r|e]; simpl; split; reflexivity. }
  intros Hnp. rewrite (by_predicate_unsupported _ a Hnp).
  split; [|split].
  - intros last_ts ts Hl Hq Hn.
    rewrite (by_last_ts_some _ _ ttl now _ _ Hl Hq Hn). unfold stamp_decision.
    destruct (stamp_outcome ts ttl now) as [b|e]; simpl; split; reflexivity.
  - intros Hnt. rewrite (by_last_ts_none _ _ ttl now Hnt). fold asked.
    split.
    + intros getrec rec Hg Hr.
      destruct (by_record_decision store q ttl now getrec rec Hg Hr) as (r & -> & Hd).
      unfold next, bind, calls, answer, ret; simpl.
      destruct r as [[b|]|e]; simpl in *; rewrite <- Hd; split;
        rewrite ?app_nil_r; reflexivity.
    + intros Hng. rewrite (by_record_unsupported _ q ttl now Hng).
      unfold next, bind, calls, answer, ret; simpl.
      now rewrite !app_nil_r.
  - intros Hnl Hng.
    assert (Hnt : no_timestamp store q).
    { unfold no_timestamp, unsupported in *.
      destruct (last_negative_ts store) as [|[]| |]; try contradiction; exact I. }
    rewrite (by_last_ts_none _ _ ttl now Hnt), (by_record_unsupported _ q ttl now Hng).
    unfold unsupported in Hnl.
    destruct (last_negative_ts store) as [|[]| |]; try contradiction;
      unfold next, bind, calls, answer, ret; simpl; now rewrite !app_nil_r.
Qed.

Lemma capability_probe_order_witness :
  calls (should_suppress_write canonical_key (predicate_store (PBool true)) matrix
           rate_ratings None None (seconds 1000))
  = [SuppressByKeyCall {| sa_key := "tmdb:603"; sa_list := "ratings"; sa_dim := "unrate";
                          sa_ttl_sec := 259200; sa_pair_id := None |}] /\
  answer (should_suppress_write canonical_key (predicate_store (PBool true)) matrix
            rate_ratings None None (seconds 1000)) = Ok true.
Proof.
  destruct (capability_probe_order canonical_key (predicate_store (PBool true)) matrix
              rate_ratings None None (seconds 1000) "ratings" "rate" "tmdb:603" 259200
              eq_refl eq_refl eq_refl)
    as (H & _).
  exact (H (fun _ => Ok (PBool true)) eq_refl).
Defined.

(** C3, where it fails as written: a store whose timestamp lookup gives no
    timestamp is asked again through the generic lookup, and the record
    found there suppresses the write. *)
Lemma generic_lookup_consulted_after_no_timestamp :
  calls (should_suppress_write canonical_key (ts_store PNone (PDict [("ts", PInt 995)]))
           matrix rate_ratings None None (seconds 1000))
  = [LastNegativeTsCall {| q_key := "tmdb:603"; q_list := "ratings"; q_dim := "unrate";
                           q_pair_id := None |};
     GetCall {| q_key := "tmdb:603"; q_list := "ratings"; q_dim := "unrate";
                q_pair_id := None |}] /\
  answer (should_suppress_write canonical_key (ts_store PNone (PDict [("ts", PInt 995)]))
            matrix rate_ratings None None (seconds 1000)) = Ok true.
Proof. split; vm_compute; reflexivity. Qed.

(** ** Decisions by timestamp *)

Lemma run_by_predicate (resolver : dict -> result string) (store : Store)
    (entity : dict) (scope : scope_arg) (pair_id : option string) (ttl_sec : option Z)
    (now : float) (feat dim key : string) (ttl : Z) (pred : suppress_args -> result pyval) :
  _coerce_scope scope = Ok (feat, dim) ->
  resolver entity = Ok key ->
  ttl_in_force store feat ttl_sec = Ok ttl ->
  should_suppress_by_key store = Method pred ->
  calls (should_suppress_write resolver store entity scope pair_id ttl_sec now) =
  (cfg_log store ++
   [SuppressByKeyCall {| sa_key := key; sa_list := feat; sa_dim := opposing (Some dim);
                         sa_ttl_sec := ttl; sa_pair_id := pair_id |}])%list.
Proof.
  intros Hs Hk Ht Hp. rewrite (should_suppress_write_run _ _ _ _ _ _ _ _ _ _ _ Hs Hk Ht).
  unfold capability_probe, by_predicate, next, invoke, bind, lift. rewrite Hp. simpl.
  match goal with |- context [pred ?a] => destruct (pred a) end; reflexivity.
Qed.

Lemma run_by_timestamp (resolver : dict -> result string) (store : Store)
    (entity : dict) (scope : scope_arg) (pair_id : option string) (ttl_sec : option Z)
    (now : float) (feat dim key : string) (ttl : Z) (last_ts : query_args -> result pyval)
    (ts : pyval) :
  _coerce_scope scope = Ok (feat, dim) ->
  resolver entity = Ok key ->
  ttl_in_force store feat ttl_sec = Ok ttl ->
  unsupported (should_suppress_by_key store) ->
  last_negative_ts store = Method last_ts ->
  last_ts {| q_key := key; q_list := feat; q_dim := opposing (Some dim);
             q_pair_id := pair_id |} = Ok ts ->
  ts <> PNone ->
  answer (should_suppress_write resolver store entity scope pair_id ttl_sec now) =
  Ok (stamp_decision ts ttl now).
Proof.
  intros Hs Hk Ht Hnp Hl Hq Hn.
  rewrite (should_suppress_write_run _ _ _ _ _ _ _ _ _ _ _ Hs Hk Ht).
  unfold capability_probe.
  rewrite (by_predicate_unsupported _ _ Hnp), (by_last_ts_some _ _ _ _ _ _ Hl Hq Hn).
  unfold stamp_decision. destruct (stamp_outcome ts ttl now); reflexivity.
Qed.

Lemma run_by_record (resolver : dict -> result string) (store : Store)
    (entity : dict) (scope : scope_arg) (pair_id : option string) (ttl_sec : option Z)
    (now : float) (feat dim key : string) (ttl : Z) (getrec : query_args -> result pyval)
    (rec : pyval) :
  _coerce_scope scope = Ok (feat, dim) ->
  resolver entity = Ok key ->
  ttl_in_force store feat ttl_sec = Ok ttl ->
  unsupported (should_suppress_by_key store) ->
  no_timestamp store {| q_key := key; q_list := feat; q_dim := opposing (Some dim);
                        q_pair_id := pair_id |} ->
  get store = Method getrec ->
  getrec {| q_key := key; q_list := feat; q_dim := opposing (Some dim);
            q_pair_id := pair_id |} = Ok rec ->
  answer (should_suppress_write resolver store entity scope pair_id ttl_sec now) =
  Ok (record_decision rec ttl now).
Proof.
  intros Hs Hk Ht Hnp Hnt Hg Hr.
  rewrite (should_suppress_write_run _ _ _ _ _ _ _ _ _ _ _ Hs Hk Ht).
  unfold capability_probe.
  rewrite (by_predicate_unsupported _ _ Hnp), (by_last_ts_none _ _ _ _ Hnt).
  destruct (by_record_decision store _ ttl now getrec rec Hg Hr) as (r & -> & Hd).
  unfold next, bind, answer, ret; simpl.
  destruct r as [[b|]|e]; simpl in *; now rewrite <- Hd.
Qed.

Lemma py_int_not_none (v : pyval) (z : Z) : py_int v = Ok z -> v <> PNone.
Proof. intros H ->. discriminate H. Qed.

Lemma stamp_decision_exact (v : pyval) (z s ttl : Z) :
  py_int v = Ok z -> exact s -> exact z ->
  stamp_decision v ttl (seconds s) = (s - z <? ttl).
Proof.
  intros Hv Hs Hz. unfold stamp_decision, stamp_outcome.
  now rewrite Hv, (elapsed_lt_exact s z ttl Hs Hz).
Qed.

(** C5, as the code has it.  The clock is a float and the timestamp is
    converted to one before the subtraction.  When the decision comes from
    a last-negative timestamp, given by the timestamp lookup or carried by
    the record of the generic lookup, and the clock and the timestamp are
    whole numbers of seconds below [2^52] in magnitude, the write is
    suppressed exactly when [now - timestamp < ttl]: with the clock at
    [timestamp + ttl] the write is not suppressed, with the clock at
    [timestamp + ttl - 1] it is. *)
Theorem suppression_boundary_strict :
  forall (resolver : dict -> result string) (store : Store) (entity : dict)
         (scope : scope_arg) (pair_id : option string) (ttl_sec : option Z)
         (feat dim key : string) (ttl : Z),
    _coerce_scope scope = Ok (feat, dim) ->
    resolver entity = Ok key ->
    ttl_in_force store feat ttl_sec = Ok ttl ->
    unsupported (should_suppress_by_key store) ->
    let run := fun s : Z =>
      should_suppress_write resolver store entity scope pair_id ttl_sec (seconds s) in
    let q := {| q_key := key; q_list := feat; q_dim := opposing (Some dim);
                q_pair_id := pair_id |} in
    (forall last_ts ts z,
        last_negative_ts store = Method last_ts -> last_ts q = Ok ts ->
        py_int ts = Ok z -> exact z ->
        (exact (z + ttl) -> answer (run (z + ttl)) = Ok false) /\
        (exact (z + ttl - 1) -> answer (run (z + ttl - 1)) = Ok true) /\
        (forall s, exact s -> answer (run s) = Ok (s - z <? ttl))) /\
    (no_timestamp store q ->
     forall getrec d v z,
       get store = Method getrec -> getrec q = Ok (PDict d) -> lookup "ts" d = Some v ->
       py_int v = Ok z -> exact z ->
       (exact (z + ttl) -> answer (run (z + ttl)) = Ok false) /\
       (exact (z + ttl - 1) -> answer (run (z + ttl - 1)) = Ok true) /\
       (forall s, exact s -> answer (run s) = Ok (s - z <? ttl))).
Proof.
  intros resolver store entity scope pair_id ttl_sec feat dim key ttl Hs Hk Ht Hnp run q.
  assert (Hat : forall z, (z + ttl - z <? ttl) = false) by (intros; apply Z.ltb_ge; lia).
  assert (Hin : forall z, (z + ttl - 1 - z <? ttl) = true) by (intros; apply Z.ltb_lt; lia).
  split.
  - intros last_ts ts z Hl Hq Hz Hez.
    assert (H : forall s, exact s -> answer (run s) = Ok (s - z <? ttl)).
    { intros s Hes. unfold run.
      rewrite (run_by_timestamp _ _ _ _ _ _ (seconds s) _ _ _ _ _ _ Hs Hk Ht Hnp Hl Hq
                 (py_int_not_none _ _ Hz)).
      now rewrite (stamp_decision_exact _ _ _ _ Hz Hes Hez). }
    split; [|split; [|exact H]]; intros He; rewrite (H _ He); congruence.
  - intros Hnt getrec d v z Hg Hr Hv Hz Hez.
    assert (H : forall s, exact s -> answer (run s) = Ok (s - z <? ttl)).
    { intros s Hes. unfold run.
      rewrite (run_by_record _ _ _ _ _ _ (seconds s) _ _ _ _ _ _ Hs Hk Ht Hnp Hnt Hg Hr).
      unfold record_decision. rewrite Hv.
      now rewrite (stamp_decision_exact _ _ _ _ Hz Hes Hez). }
    split; [|split; [|exact H]]; intros He; rewrite (H _ He); congruence.
Qed.

Lemma suppression_boundary_strict_witness :
  answer (should_suppress_write canonical_key (ts_store (PInt 740800) PNone) matrix
            rate_ratings None None (seconds (740800 + 259200))) = Ok false /\
  answer (should_suppress_write canonical_key (ts_store (PInt 740801) PNone) matrix
            rate_ratings None None (seconds (740801 + 259200 - 1))) = Ok true /\
  answer (should_suppress_write canonical_key (record_store (PDict [("ts", PInt 740800)]))
            matrix rate_ratings None None (seconds (740800 + 259200))) = Ok false /\
  answer (should_suppress_write canonical_key (record_store (PDict [("ts", PInt 740801)]))
            matrix rate_ratings None None (seconds (740801 + 259200 - 1))) = Ok true.
Proof.
  split; [|split; [|split]].
  - destruct (suppression_boundary_strict canonical_key (ts_store (PInt 740800) PNone)
                matrix rate_ratings None None "ratings" "rate" "tmdb:603" 259200
                eq_refl eq_refl eq_refl I) as (H & _).
    destruct (H (fun _ => Ok (PInt 740800)) (PInt 740800) 740800 eq_refl eq_refl eq_refl
                (eq_refl : exact 740800)) as (Hat & _).
    exact (Hat (eq_refl : exact (740800 + 259200))).
  - destruct (suppression_boundary_strict canonical_key (ts_store (PInt 740801) PNone)
                matrix rate_ratings None None "ratings" "rate" "tmdb:603" 259200
                eq_refl eq_refl eq_refl I) as (H & _).
    destruct (H (fun _ => Ok (PInt 740801)) (PInt 740801) 740801 eq_refl eq_refl eq_refl
                (eq_refl : exact 740801)) as (_ & Hin & _).
    exact (Hin (eq_refl : exact (740801 + 259200 - 1))).
  - destruct (suppression_boundary_strict canonical_key
                (record_store (PDict [("ts", PInt 740800)]))
                matrix rate_ratings None None "ratings" "rate" "tmdb:603" 259200
                eq_refl eq_refl eq_refl I) as (_ & H).
    destruct (H I (fun _ => Ok (PDict [("ts", PInt 740800)])) [("ts", PInt 740800)]
                (PInt 740800) 740800 eq_refl eq_refl eq_refl eq_refl
                (eq_refl : exact 740800)) as (Hat & _).
    exact (Hat (eq_refl : exact (740800 + 259200))).
  - destruct (suppression_boundary_strict canonical_key
                (record_store (PDict [("ts", PInt 740801)]))
                matrix rate_ratings None None "ratings" "rate" "tmdb:603" 259200
                eq_refl eq_refl eq_refl I) as (_ & H).
    destruct (H I (fun _ => Ok (PDict [("ts", PInt 740801)])) [("ts", PInt 740801)]
                (PInt 740801) 740801 eq_refl eq_refl eq_refl eq_refl
                (eq_refl : exact 740801)) as (_ & Hin & _).
    exact (Hin (eq_refl : exact (740801 + 259200 - 1))).
Defined.

(** C5, where it fails as written: with the clock at [2^30] seconds and an
    override of [2^60] seconds, a timestamp at [now - ttl + 1] does not
    suppress the write.  The difference [now - timestamp] is
    [2^60 - 1], which a float cannot hold; it is rounded to [2^60], which
    is not below the TTL. *)
Lemma suppression_boundary_rounded_away :
  ttl_in_force (ts_store (PInt (2 ^ 30 - 2 ^ 60 + 1)) PNone) "ratings" (Some (2 ^ 60))
  = Ok (2 ^ 60) /\
  answer (should_suppress_write canonical_key (ts_store (PInt (2 ^ 30 - 2 ^ 60 + 1)) PNone)
            matrix rate_ratings None (Some (2 ^ 60)) (seconds (2 ^ 30))) = Ok false /\
  answer (should_suppress_write canonical_key
            (record_store (PDict [("ts", PInt (2 ^ 30 - 2 ^ 60 + 1))]))
            matrix rate_ratings None (Some (2 ^ 60)) (seconds (2 ^ 30))) = Ok false.
Proof.
  split; [vm_compute; reflexivity|].
  split; vm_compute; reflexivity.
Qed.

(** ** TTL of a run *)

(** C4, as the code has it.  The TTL of a run is the override whenever one
    is supplied and is not zero, a negative one included; with no override
    or a zero one it is [get_quarantine_ttl_sec] on the configuration of
    the store and the feature of the scope, and when that resolution
    raises the run answers [False].  It is the TTL handed to the direct
    predicate and the one the timestamp and record decisions compare
    with. *)
Theorem ttl_override_unless_zero :
  forall (resolver : dict -> result string) (store : Store) (entity : dict)
         (scope : scope_arg) (pair_id : option string) (ttl_sec : option Z) (now : float)
         (feat dim key : string),
    _coerce_scope scope = Ok (feat, dim) ->
    resolver entity = Ok key ->
    let run := should_suppress_write resolver store entity scope pair_id ttl_sec now in
    let q := {| q_key := key; q_list := feat; q_dim := opposing (Some dim);
                q_pair_id := pair_id |} in
    (forall t, ttl_sec = Some t -> t <> 0 -> ttl_in_force store feat ttl_sec = Ok t) /\
    (ttl_sec = None \/ ttl_sec = Some 0 ->
     ttl_in_force store feat ttl_sec
     = get_quarantine_ttl_sec (policy_cfg store) (Some feat)) /\
    (forall e, ttl_in_force store feat ttl_sec = Raise e ->
               run = (cfg_log store, Ok false)) /\
    (forall ttl, ttl_in_force store feat ttl_sec = Ok ttl ->
       (forall pred, should_suppress_by_key store = Method pred ->
          calls run =
          (cfg_log store ++
           [SuppressByKeyCall {| sa_key := key; sa_list := feat;
                                 sa_dim := opposing (Some dim);
                                 sa_ttl_sec := ttl; sa_pair_id := pair_id |}])%list) /\
       (unsupported (should_suppress_by_key store) ->
        (forall last_ts ts,
            last_negative_ts store = Method last_ts -> last_ts q = Ok ts -> ts <> PNone ->
            answer run = Ok (stamp_decision ts ttl now)) /\
        (no_timestamp store q ->
         forall getrec rec,
           get store = Method getrec -> getrec q = Ok rec ->
           answer run = Ok (record_decision rec ttl now)))).
Proof.
  intros resolver store entity scope pair_id ttl_sec now feat dim key Hs Hk run q.
  split; [|split; [|split; [|intros ttl Ht; split; [|intros Hnp; split]]]].
  - intros t -> Ht. unfold ttl_in_force, ttl_or.
    destruct (Z.eqb_spec t 0); [contradiction|reflexivity].
  - intros [->| ->]; reflexivity.
  - intros e He. exact (ttl_raise_false _ _ _ _ _ _ _ _ _ _ _ Hs Hk He).
  - intros pred Hp. exact (run_by_predicate _ _ _ _ _ _ _ _ _ _ _ _ Hs Hk Ht Hp).
  - intros last_ts ts Hl Hq Hn.
    exact (run_by_timestamp _ _ _ _ _ _ _ _ _ _ _ _ _ Hs Hk Ht Hnp Hl Hq Hn).
  - intros Hnt getrec rec Hg Hr.
    exact (run_by_record _ _ _ _ _ _ _ _ _ _ _ _ _ Hs Hk Ht Hnp Hnt Hg Hr).
Qed.

Lemma ttl_override_unless_zero_witness :
  ttl_in_force (predicate_store (PBool true)) "ratings" (Some 60) = Ok 60 /\
  ttl_in_force (predicate_store (PBool true)) "ratings" (Some 0) = Ok 259200 /\
  calls (should_suppress_write canonical_key (predicate_store (PBool true)) matrix
           rate_ratings None (Some 60) (seconds 1000))
  = [SuppressByKeyCall {| sa_key := "tmdb:603"; sa_list := "ratings"; sa_dim := "unrate";
                          sa_ttl_sec := 60; sa_pair_id := None |}].
Proof.
  split; [|split].
  - destruct (ttl_override_unless_zero canonical_key (predicate_store (PBool true)) matrix
                rate_ratings None (Some 60) (seconds 1000) "ratings" "rate" "tmdb:603"
                eq_refl eq_refl)
      as (H & _).
    apply (H 60 eq_refl). discriminate.
  - destruct (ttl_override_unless_zero canonical_key (predicate_store (PBool true)) matrix
                rate_ratings None (Some 0) (seconds 1000) "ratings" "rate" "tmdb:603"
                eq_refl eq_refl)
      as (_ & H & _).
    exact (H (or_intror eq_refl)).
  - destruct (ttl_override_unless_zero canonical_key (predicate_store (PBool true)) matrix
                rate_ratings None (Some 60) (seconds 1000) "ratings" "rate" "tmdb:603"
                eq_refl eq_refl)
      as (_ & _ & _ & H).
    destruct (H 60 eq_refl) as (Hp & _).
    exact (Hp (fun _ => Ok (PBool true)) eq_refl).
Defined.

(** C4, where it fails as written: a negative override is the TTL of the
    run, not the configured quarantine; it is handed to the direct
    predicate, and against it a removal one second old does not suppress. *)
Lemma negative_override_is_used :
  calls (should_suppress_write canonical_key (predicate_store (PBool true)) matrix
           rate_ratings None (Some (-5)) (seconds 1000))
  = [SuppressByKeyCall {| sa_key := "tmdb:603"; sa_list := "ratings"; sa_dim := "unrate";
                          sa_ttl_sec := -5; sa_pair_id := None |}] /\
  get_quarantine_ttl_sec (policy_cfg (predicate_store (PBool true))) (Some "ratings")
  = Ok 259200 /\
  answer (should_suppress_write canonical_key (ts_store (PInt 999) PNone) matrix
            rate_ratings None (Some (-5)) (seconds 1000)) = Ok false /\
  answer (should_suppress_write canonical_key (ts_store (PInt 999) PNone) matrix
            rate_ratings None None (seconds 1000)) = Ok true.
Proof.
  split; [vm_compute; reflexivity|]. split; [vm_compute; reflexivity|].
  split; vm_compute; reflexivity.
Qed.

(** ** Faults *)

Lemma try_block_raise_false (resolver : dict -> result string) (store : Store)
    (entity : dict) (scope : scope_arg) (pair_id : option string) (ttl_sec : option Z)
    (now : float) (e : exn) :
  answer (try_block resolver store entity scope pair_id ttl_sec now) = Raise e ->
  answer (should_suppress_write resolver store entity scope pair_id ttl_sec now) = Ok false.
Proof.
  unfold should_suppress_write, answer.
  destruct (try_block resolver store entity scope pair_id ttl_sec now) as [l [r|e']];
    simpl; [discriminate|reflexivity].
Qed.

Lemma should_suppress_write_total (resolver : dict -> result string) (store : Store)
    (entity : dict) (scope : scope_arg) (pair_id : option string) (ttl_sec : option Z)
    (now : float) :
  exists b,
    answer (should_suppress_write resolver store entity scope pair_id ttl_sec now) = Ok b.
Proof.
  unfold should_suppress_write, answer.
  destruct (try_block resolver store entity scope pair_id ttl_sec now) as [l [[b|]|e]];
    simpl; eexists; reflexivity.
Qed.

Lemma scope_raise_false (resolver : dict -> result string) (store : Store)
    (entity : dict) (scope : scope_arg) (pair_id : option string) (ttl_sec : option Z)
    (now : float) (e : exn) :
  _coerce_scope scope = Raise e ->
  should_suppress_write resolver store entity scope pair_id ttl_sec now = ([], Ok false).
Proof.
  intros H. unfold should_suppress_write, try_block. rewrite H. reflexivity.
Qed.

Lemma key_raise_false (resolver : dict -> result string) (store : Store)
    (entity : dict) (scope : scope_arg) (pair_id : option string) (ttl_sec : option Z)
    (now : float) (e : exn) :
  resolver entity = Raise e ->
  should_suppress_write resolver store entity scope pair_id ttl_sec now = ([], Ok false).
Proof.
  intros H. unfold should_suppress_write, try_block.
  destruct (_coerce_scope scope) as [[feat dim]|e']; [|reflexivity].
  unfold lift, bind at 2. rewrite H. reflexivity.
Qed.

(** A run whose capability probe never decides [True], whenever it is
    reached, answers [False]. *)
Lemma probe_not_true_false (resolver : dict -> result string) (store : Store)
    (entity : dict) (scope : scope_arg) (pair_id : option string) (ttl_sec : option Z)
    (now : float) :
  (forall key feat want_dim ttl,
      answer (capability_probe store key feat want_dim ttl pair_id now) <> Ok (Some true)) ->
  answer (should_suppress_write resolver store entity scope pair_id ttl_sec now) = Ok false.
Proof.
  intros H.
  destruct (_coerce_scope scope) as [[feat dim]|e] eqn:Hs;
    [|now rewrite (scope_raise_false _ _ _ _ _ _ _ _ Hs)].
  destruct (resolver entity) as [key|e] eqn:Hk;
    [|now rewrite (key_raise_false _ _ _ _ _ _ _ _ Hk)].
  destruct (ttl_in_force store feat ttl_sec) as [ttl|e] eqn:Ht;
    [|now rewrite (ttl_raise_false _ _ _ _ _ _ _ _ _ _ _ Hs Hk Ht)].
  rewrite (should_suppress_write_run _ _ _ _ _ _ _ _ _ _ _ Hs Hk Ht).
  specialize (H key feat (opposing (Some dim)) ttl).
  cbv zeta. unfold answer at 1. simpl.
  destruct (answer (capability_probe store key feat (opposing (Some dim)) ttl pair_id now))
    as [[[|]|]|e]; try reflexivity. now contradiction H.
Qed.

Lemma probe_raise_false (resolver : dict -> result string) (store : Store)
    (entity : dict) (scope : scope_arg) (pair_id : option string) (ttl_sec : option Z)
    (now : float) :
  (forall key feat want_dim ttl,
      exists e, answer (capability_probe store key feat want_dim ttl pair_id now) = Raise e) ->
  answer (should_suppress_write resolver store entity scope pair_id ttl_sec now) = Ok false.
Proof.
  intros H. apply probe_not_true_false. intros key feat want_dim ttl.
  destruct (H key feat want_dim ttl) as (e & ->). discriminate.
Qed.

Lemma probe_raises_at_predicate (store : Store) (key feat want_dim : string) (ttl : Z)
    (pair_id : option string) (now : float) :
  always_raises (should_suppress_by_key store) ->
  exists e, answer (capability_probe store key feat want_dim ttl pair_id now) = Raise e.
Proof.
  unfold capability_probe, by_predicate, always_raises, next, invoke, bind, lift.
  destruct (should_suppress_by_key store) as [|e|v|f]; intros H; try contradiction.
  - destruct e; try contradiction; eexists; reflexivity.
  - simpl. match goal with |- context [f ?a] => destruct (H a) as (e & ->) end. now exists e.
Qed.

Lemma probe_raises_at_last_ts (store : Store) (key feat want_dim : string) (ttl : Z)
    (pair_id : option string) (now : float) :
  unsupported (should_suppress_by_key store) ->
  always_raises (last_negative_ts store) ->
  exists e, answer (capability_probe store key feat want_dim ttl pair_id now) = Raise e.
Proof.
  intros Hnp. unfold capability_probe. rewrite (by_predicate_unsupported _ _ Hnp).
  unfold by_last_ts, always_raises, next, invoke, bind, lift.
  destruct (last_negative_ts store) as [|e|v|f]; intros H; try contradiction.
  - destruct e; try contradiction; eexists; reflexivity.
  - simpl. match goal with |- context [f ?a] => destruct (H a) as (e & ->) end. now exists e.
Qed.

Lemma probe_raises_at_get (store : Store) (key feat want_dim : string) (ttl : Z)
    (pair_id : option string) (now : float) :
  unsupported (should_suppress_by_key store) ->
  (forall q, no_timestamp store q) ->
  always_raises (get store) ->
  exists e, answer (capability_probe store key feat want_dim ttl pair_id now) = Raise e.
Proof.
  intros Hnp Hnt. unfold capability_probe.
  rewrite (by_predicate_unsupported _ _ Hnp), (by_last_ts_none _ _ _ _ (Hnt _)).
  unfold by_record, always_raises, next, invoke, bind, lift.
  destruct (get store) as [|e|v|f]; intros H; try contradiction.
  - destruct e; try contradiction; eexists; reflexivity.
  - simpl. match goal with |- context [f ?a] => destruct (H a) as (e & ->) end. now exists e.
Qed.

Lemma probe_raises_at_malformed_ts (store : Store) (key feat want_dim : string) (ttl : Z)
    (pair_id : option string) (now : float) (last_ts : query_args -> result pyval) :
  unsupported (should_suppress_by_key store) ->
  last_negative_ts store = Method last_ts ->
  (forall q, exists ts, last_ts q = Ok ts /\ malformed_ts ts) ->
  exists e, answer (capability_probe store key feat want_dim ttl pair_id now) = Raise e.
Proof.
  intros Hnp Hl H. unfold capability_probe. rewrite (by_predicate_unsupported _ _ Hnp).
  match goal with |- context [by_last_ts store ?q _ _] =>
    destruct (H q) as (ts & Hq & Hn & He);
    destruct (He ttl now) as (e & He');
    rewrite (by_last_ts_some _ _ ttl now _ _ Hl Hq Hn), He'
  end.
  now exists e.
Qed.

Lemma probe_raises_at_malformed_record (store : Store) (key feat want_dim : string) (ttl : Z)
    (pair_id : option string) (now : float) (getrec : query_args -> result pyval) :
  unsupported (should_suppress_by_key store) ->
  (forall q, no_timestamp store q) ->
  get store = Method getrec ->
  (forall q, exists d v, getrec q = Ok (PDict d) /\ lookup "ts" d = Some v /\
                         forall ttl now, exists e, stamp_outcome v ttl now = Raise e) ->
  exists e, answer (capability_probe store key feat want_dim ttl pair_id now) = Raise e.
Proof.
  intros Hnp Hnt Hg H. unfold capability_probe.
  rewrite (by_predicate_unsupported _ _ Hnp), (by_last_ts_none _ _ _ _ (Hnt _)).
  unfold by_record, next, invoke, bind, lift. rewrite Hg. simpl.
  match goal with |- context [getrec ?q] => destruct (H q) as (d & v & -> & Hv & He) end.
  destruct (He ttl now) as (e & He'). unfold stamp_outcome in He'.
  unfold dict_has, dict_get. rewrite Hv. simpl.
  destruct (py_int v) as [z|e0]; simpl.
  - rewrite He'. now exists e.
  - now exists e0.
Qed.

(** With every capability faulty, the probe raises or finds nothing. *)
Lemma probe_all_faulty (store : Store) (key feat want_dim : string) (ttl : Z)
    (pair_id : option string) (now : float) :
  faulty (should_suppress_by_key store) ->
  faulty (last_negative_ts store) ->
  faulty (get store) ->
  answer (capability_probe store key feat want_dim ttl pair_id now) <> Ok (Some true).
Proof.
  unfold capability_probe, by_predicate, by_last_ts, by_record, faulty, next, invoke,
    bind, lift.
  intros Hp Hl Hg.
  destruct (should_suppress_by_key store) as [|e1|v1|f1]; try contradiction.
  2:{ simpl. match goal with |- context [f1 ?a] => destruct (Hp a) as (e & ->) end.
      discriminate. }
  destruct e1; try discriminate. simpl.
  destruct (last_negative_ts store) as [|e2|v2|f2]; try contradiction.
  2:{ simpl. match goal with |- context [f2 ?a] => destruct (Hl a) as (e & ->) end.
      discriminate. }
  destruct e2; try discriminate. simpl.
  destruct (get store) as [|e3|v3|f3]; try contradiction.
  2:{ simpl. match goal with |- context [f3 ?a] => destruct (Hg a) as (e & ->) end.
      discriminate. }
  destruct e3; discriminate.
Qed.

Lemma cfg_attr_absorbs (name : string) (a : attr (unit -> result pyval)) :
  faulty a -> answer (cfg_attr name a) = Ok None.
Proof.
  unfold cfg_attr, faulty. destruct a as [|e|v|f]; intros H; try contradiction.
  - destruct e; reflexivity.
  - destruct (H tt) as (e & He). unfold invoke, bind, lift. simpl. now rewrite He.
Qed.

(** C1, as the code has it.  The predicate never lets an exception out:
    every run ends with a boolean.  Whatever is raised inside the [try]
    block gives [False]: by the key resolver, by the TTL resolution on a
    setting it cannot convert, by the direct predicate, the timestamp
    lookup or the generic lookup when the probe reaches them and calling
    them raises or reading them raises something else than
    [AttributeError], or by the conversion of a timestamp it refuses.  An
    exception of a configuration accessor does not end the run: it is
    absorbed inside [_cfg_from_store], which goes on to the next accessor.
    An [AttributeError] on reading a capability does not end the run
    either: [getattr] absorbs it, the capability counts as missing and the
    probe goes on.  In both cases the probe then decides.  A store whose
    every capability raises gives [False]. *)
Theorem should_suppress_write_fail_open :
  forall (resolver : dict -> result string) (store : Store) (entity : dict)
         (scope : scope_arg) (pair_id : option string) (ttl_sec : option Z) (now : float),
    let run := should_suppress_write resolver store entity scope pair_id ttl_sec now in
    (exists b, answer run = Ok b) /\
    (forall e, answer (try_block resolver store entity scope pair_id ttl_sec now) = Raise e ->
               answer run = Ok false) /\
    (forall e, resolver entity = Raise e -> answer run = Ok false) /\
    (forall feat dim e,
        _coerce_scope scope = Ok (feat, dim) ->
        ttl_in_force store feat ttl_sec = Raise e -> answer run = Ok false) /\
    (always_raises (should_suppress_by_key store) -> answer run = Ok false) /\
    (unsupported (should_suppress_by_key store) ->
     always_raises (last_negative_ts store) -> answer run = Ok false) /\
    (unsupported (should_suppress_by_key store) ->
     (forall q, no_timestamp store q) ->
     always_raises (get store) -> answer run = Ok false) /\
    (unsupported (should_suppress_by_key store) ->
     forall last_ts, last_negative_ts store = Method last_ts ->
     (forall q, exists ts, last_ts q = Ok ts /\ malformed_ts ts) ->
     answer run = Ok false) /\
    (unsupported (should_suppress_by_key store) ->
     (forall q, no_timestamp store q) ->
     forall getrec, get store = Method getrec ->
     (forall q, exists d v, getrec q = Ok (PDict d) /\ lookup "ts" d = Some v /\
                            forall ttl now', exists e, stamp_outcome v ttl now' = Raise e) ->
     answer run = Ok false) /\
    (forall name a, faulty a -> answer (cfg_attr name a) = Ok None) /\
    (forall F (a : attr F), a = Faulty AttributeError -> getattr a = Ok Missing) /\
    (faulty (should_suppress_by_key store) ->
     faulty (last_negative_ts store) -> faulty (get store) ->
     answer run = Ok false).
Proof.
  intros resolver store entity scope pair_id ttl_sec now run.
  split; [apply should_suppress_write_total|].
  split; [apply try_block_raise_false|].
  split; [intros e H; subst run; now rewrite (key_raise_false _ _ _ _ _ _ _ _ H)|].
  split.
  { intros feat dim e Hs Ht. subst run.
    destruct (resolver entity) as [key|e'] eqn:Hk;
      [|now rewrite (key_raise_false _ _ _ _ _ _ _ _ Hk)].
    now rewrite (ttl_raise_false _ _ _ _ _ _ _ _ _ _ _ Hs Hk Ht). }
  split.
  { intros H. apply probe_raise_false. intros. now apply probe_raises_at_predicate. }
  split.
  { intros Hnp H. apply probe_raise_false. intros. now apply probe_raises_at_last_ts. }
  split.
  { intros Hnp Hnt H. apply probe_raise_false. intros. now apply probe_raises_at_get. }
  split.
  { intros Hnp last_ts Hl H. apply probe_raise_false. intros.
    now apply (probe_raises_at_malformed_ts _ _ _ _ _ _ _ last_ts). }
  split.
  { intros Hnp Hnt getrec Hg H. apply probe_raise_false. intros.
    now apply (probe_raises_at_malformed_record _ _ _ _ _ _ _ getrec). }
  split; [exact cfg_attr_absorbs|].
  split; [intros F a ->; reflexivity|].
  intros Hp Hl Hg. apply probe_not_true_false. intros. now apply probe_all_faulty.
Qed.

Lemma broken_store_faulty :
  faulty (should_suppress_by_key broken_store) /\
  faulty (last_negative_ts broken_store) /\ faulty (get broken_store).
Proof. repeat split; intros x; eexists; reflexivity. Qed.

Lemma should_suppress_write_fail_open_witness :
  answer (should_suppress_write canonical_key broken_store matrix rate_ratings None None
            (seconds 1000))
  = Ok false.
Proof.
  destruct (should_suppress_write_fail_open canonical_key broken_store matrix rate_ratings
              None None (seconds 1000)) as (_ & _ & _ & _ & _ & _ & _ & _ & _ & _ & _ & H).
  destruct broken_store_faulty as (H4 & H5 & H6).
  exact (H H4 H5 H6).
Defined.

(** C1, where it fails as written.  The configuration accessor of the
    store raises while the TTL is resolved, and the run still ends with
    [True], the answer of the direct predicate.  Reading the direct
    predicate of a store raises [AttributeError], and the run still ends
    with [True], decided by the timestamp lookup. *)
Lemma config_fault_then_suppressed :
  faulty (cfg flaky_cfg_store) /\
  calls (should_suppress_write canonical_key flaky_cfg_store matrix rate_ratings
           None None (seconds 1000))
  = [ConfigCall "cfg";
     SuppressByKeyCall {| sa_key := "tmdb:603"; sa_list := "ratings"; sa_dim := "unrate";
                          sa_ttl_sec := 259200; sa_pair_id := None |}] /\
  answer (should_suppress_write canonical_key flaky_cfg_store matrix rate_ratings
            None None (seconds 1000)) = Ok true /\
  should_suppress_by_key (hidden_predicate_store (PInt 995)) = Faulty AttributeError /\
  answer (should_suppress_write canonical_key (hidden_predicate_store (PInt 995)) matrix
            rate_ratings None None (seconds 1000)) = Ok true.
Proof.
  split; [intros x; eexists; reflexivity|].
  split; [vm_compute; reflexivity|]. split; [vm_compute; reflexivity|].
  split; [reflexivity|vm_compute; reflexivity].
Qed.

(** ** Scope contract *)

(** C2, as the code has it.  A scope that is neither a [Scope] nor a
    mapping makes [_coerce_scope] raise [TypeError]; the call sits inside
    the [try] block, so [should_suppress_write] absorbs it, as it absorbs
    whatever else [_coerce_scope] raises: the run asks the store nothing
    and answers [False].  A [Scope] is accepted, and so is a mapping whose
    [list] and [dim] are texts. *)
Theorem scope_type_error_absorbed :
  forall (resolver : dict -> result string) (store : Store) (entity : dict)
         (v : pyval) (pair_id : option string) (ttl_sec : option Z) (now : float),
    is_mapping v = false ->
    _coerce_scope (ScopeVal v) = Raise TypeError /\
    should_suppress_write resolver store entity (ScopeVal v) pair_id ttl_sec now
    = ([], Ok false) /\
    (forall scope e,
        _coerce_scope scope = Raise e ->
        should_suppress_write resolver store entity scope pair_id ttl_sec now
        = ([], Ok false)) /\
    (forall s, _coerce_scope (ScopeObj s)
               = Ok (ScopeList_str (scope_list s), ScopeDim_str (scope_dim s))) /\
    (forall d l dm,
        plain_text (dict_get d "list" (PStr "")) = Some l ->
        plain_text (dict_get d "dim" (PStr "")) = Some dm ->
        _coerce_scope (ScopeVal (PDict d)) = Ok (lower l, lower dm)).
Proof.
  intros resolver store entity v pair_id ttl_sec now Hv.
  assert (H : _coerce_scope (ScopeVal v) = Raise TypeError)
    by (destruct v; try reflexivity; discriminate Hv).
  split; [exact H|].
  split; [exact (scope_raise_false _ _ _ _ _ _ _ _ H)|].
  split; [intros scope e He; exact (scope_raise_false _ _ _ _ _ _ _ _ He)|].
  split; [reflexivity|].
  intros d l dm Hl Hd. unfold _coerce_scope.
  now rewrite (plain_text_str _ _ Hl), (plain_text_str _ _ Hd).
Qed.

Lemma scope_type_error_absorbed_witness :
  should_suppress_write canonical_key (predicate_store (PBool true)) matrix
    (ScopeVal PNone) None None (seconds 1000) = ([], Ok false).
Proof.
  destruct (scope_type_error_absorbed canonical_key (predicate_store (PBool true)) matrix
              PNone None None (seconds 1000) eq_refl) as (_ & H & _).
  exact H.
Defined.

(** C2, where it fails as written: with a text as scope the caller gets
    [False], not the [TypeError] of [_coerce_scope]. *)
Lemma scope_type_error_not_propagated :
  _coerce_scope (ScopeVal (PStr "ratings")) = Raise TypeError /\
  answer (should_suppress_write canonical_key bare_store matrix
            (ScopeVal (PStr "ratings")) None None (seconds 1000)) = Ok false.
Proof. split; reflexivity. Qed.

(** ** Further properties: operations on dimensions *)

Lemma lower_app (a b : string) : lower (a ++ b) = lower a ++ lower b.
Proof. induction a as [|c r IH]; simpl; [reflexivity|now rewrite IH]. Qed.

Lemma dim_recognized_dec (s : string) :
  (exists d, s = ScopeDim_str d) \/ (forall d, s <> ScopeDim_str d).
Proof.
  destruct (String.eqb_spec s "add"); [left; now exists add|].
  destruct (String.eqb_spec s "remove"); [left; now exists remove|].
  destruct (String.eqb_spec s "rate"); [left; now exists rate|].
  destruct (String.eqb_spec s "unrate"); [left; now exists unrate|].
  destruct (String.eqb_spec s "scrobble"); [left; now exists scrobble|].
  destruct (String.eqb_spec s "unscrobble"); [left; now exists unscrobble|].
  right; intros d; destruct d; assumption.
Qed.

Lemma opposing_recognized (op : option string) (d : ScopeDim) :
  lower (or_empty op) = ScopeDim_str d -> opposing op = opposing (Some (ScopeDim_str d)).
Proof.
  intros E. unfold opposing at 1. rewrite E. destruct d; reflexivity.
Qed.

Lemma opposing_unrecognized (op : option string) :
  (forall d, lower (or_empty op) <> ScopeDim_str d) -> opposing op = lower (or_empty op).
Proof.
  intros H. unfold opposing. apply table_get_miss.
  intros k' v Hin E. simpl in Hin.
  destruct Hin as [Hin|[Hin|[Hin|[Hin|[Hin|[Hin|[]]]]]]];
    injection Hin as Hk _; rewrite <- Hk in E.
  - exact (H add (eq_sym E)).
  - exact (H remove (eq_sym E)).
  - exact (H rate (eq_sym E)).
  - exact (H unrate (eq_sym E)).
  - exact (H scrobble (eq_sym E)).
  - exact (H unscrobble (eq_sym E)).
Qed.

Lemma is_negative_unrecognized (op : option string) :
  (forall d, lower (or_empty op) <> ScopeDim_str d) -> is_negative op = false.
Proof.
  intros H. unfold is_negative, NEGATIVE_OPS, mem_str.
  destruct (String.eqb_spec "remove" (lower (or_empty op))) as [E|_];
    [now elim (H remove)|].
  destruct (String.eqb_spec "unrate" (lower (or_empty op))) as [E|_];
    [now elim (H unrate)|].
  destruct (String.eqb_spec "unscrobble" (lower (or_empty op))) as [E|_];
    [now elim (H unscrobble)|].
  reflexivity.
Qed.

(** X1.  Applying [opposing] twice is case normalisation, for every
    argument, recognised or not, and what [opposing] returns is always in
    lower case. *)
Theorem opposing_twice_is_lower :
  forall op : option string,
    opposing (Some (opposing op)) = lower (or_empty op) /\
    lower (opposing op) = opposing op.
Proof.
  intros op.
  destruct (dim_recognized_dec (lower (or_empty op))) as [[d E]|H].
  - rewrite (opposing_recognized op d E), E. destruct d; split; reflexivity.
  - rewrite (opposing_unrecognized op H). split; [|apply lower_idem].
    rewrite opposing_unrecognized; simpl; rewrite lower_idem; [reflexivity|exact H].
Qed.

(** X2.  On the six dimensions, written in any letter case, [opposing]
    flips the classification of [is_negative]: exactly one member of each
    opposing pair is negative.  An argument that is none of the six is not
    negative, and neither is what [opposing] makes of it. *)
Theorem opposing_flips_is_negative :
  forall op : option string,
    ((exists d, lower (or_empty op) = ScopeDim_str d) ->
     is_negative (Some (opposing op)) = negb (is_negative op)) /\
    ((forall d, lower (or_empty op) <> ScopeDim_str d) ->
     is_negative op = false /\ is_negative (Some (opposing op)) = false).
Proof.
  intros op. split.
  - intros [d E]. rewrite (opposing_recognized op d E).
    unfold is_negative at 2. rewrite E. destruct d; reflexivity.
  - intros H. split; [now apply is_negative_unrecognized|].
    rewrite (opposing_unrecognized op H). apply is_negative_unrecognized.
    simpl. now rewrite lower_idem.
Qed.

Lemma opposing_flips_is_negative_witness :
  is_negative (Some (opposing (Some "ReMove"))) = negb (is_negative (Some "ReMove")) /\
  is_negative (Some (opposing (Some "delete"))) = false.
Proof.
  split.
  - destruct (opposing_flips_is_negative (Some "ReMove")) as (H & _).
    apply H. now exists remove.
  - destruct (opposing_flips_is_negative (Some "delete")) as (_ & H).
    apply H. intros d; destruct d; discriminate.
Defined.

(** X3.  The negative dimension that [negative_event_key] records and the
    dimension that a write is checked against fit together: the opposite of
    the recorded dimension is a positive one, and [opposing] takes it back
    to the recorded dimension.  The feature is read without regard to
    letter case. *)
Theorem negative_event_key_opposing_round_trip :
  forall feature op : option string,
    is_negative (Some (opposing (Some (negative_event_key feature op)))) = false /\
    opposing (Some (opposing (Some (negative_event_key feature op))))
    = negative_event_key feature op /\
    negative_event_key (Some (lower (or_empty feature))) op = negative_event_key feature op.
Proof.
  intros feature op. unfold negative_event_key at 4. simpl or_empty. rewrite lower_idem.
  fold (negative_event_key feature op). unfold negative_event_key.
  destruct (String.eqb (lower (or_empty feature)) "ratings");
    [repeat split; reflexivity|].
  destruct (String.eqb (lower (or_empty feature)) "history"); repeat split; reflexivity.
Qed.

(** ** Further properties: configuration reads *)

Lemma read_path_none (path : list string) : read_path PNone path = PNone.
Proof. destruct path; reflexivity. Qed.

Lemma read_path_app (cur : pyval) (p1 p2 : list string) :
  read_path cur (p1 ++ p2) = read_path (read_path cur p1) p2.
Proof.
  revert cur. induction p1 as [|key rest IH]; intros cur; simpl; [reflexivity|].
  destruct cur as [| | | | |d]; try (now rewrite read_path_none).
  destruct (is_none (dict_get d key PNone)); [now rewrite read_path_none|apply IH].
Qed.

Lemma read_path_not_mapping (cur : pyval) (key : string) (rest : list string) :
  is_mapping cur = false -> read_path cur (key :: rest) = PNone.
Proof. destruct cur; simpl; intros H; try reflexivity; discriminate. Qed.

(** X4.  Reading a dotted path in two steps is reading it at once: the
    value found under a prefix, read further along the rest of the path, is
    the value under the whole path. *)
Theorem read_composes :
  forall (cfg : pyval) (p1 p2 : list string),
    _read cfg (p1 ++ p2) = read_path (_read cfg p1) p2 /\
    (p2 <> [] -> _read cfg (p1 ++ p2) = _read (_read cfg p1) p2).
Proof.
  intros cfg p1 p2.
  assert (H : _read cfg (p1 ++ p2) = read_path (_read cfg p1) p2)
    by (unfold _read; apply read_path_app).
  split; [exact H|].
  intros Hne. rewrite H. destruct p2 as [|k rest]; [contradiction|].
  unfold _read at 2. unfold py_or.
  destruct (py_truthy (_read cfg p1)) eqn:Ht; [reflexivity|].
  destruct (_read cfg p1) as [|b|z|x t|s|d]; try reflexivity.
  destruct d; [reflexivity|discriminate Ht].
Qed.

Lemma read_composes_witness :
  _read precedence_cfg (["sync"] ++ ["gmt"; "ratings_sec"])
  = _read (_read precedence_cfg ["sync"]) ["gmt"; "ratings_sec"].
Proof.
  destruct (read_composes precedence_cfg ["sync"] ["gmt"; "ratings_sec"]) as (_ & H).
  apply H. discriminate.
Defined.

(** X5.  A read never fails on the shape of the configuration: as soon as
    the value under a prefix of the path is not a mapping (a missing key, a
    [None], a number, a text), every longer path reads as [None]. *)
Theorem read_through_non_mapping :
  forall (cfg : pyval) (path : list string) (key : string) (rest : list string),
    is_mapping (_read cfg path) = false ->
    _read cfg (path ++ key :: rest) = PNone.
Proof.
  intros cfg path key rest H. unfold _read in *.
  rewrite read_path_app. now apply read_path_not_mapping.
Qed.

Lemma read_through_non_mapping_witness :
  _read (PDict [("sync", PInt 3)]) (["sync"] ++ "gmt" :: ["ratings_sec"]) = PNone.
Proof.
  apply (read_through_non_mapping (PDict [("sync", PInt 3)]) ["sync"] "gmt" ["ratings_sec"]).
  reflexivity.
Defined.

(** ** Further properties: TTL resolver *)

Lemma read_non_mapping_cfg (cfg : pyval) (key : string) (rest : list string) :
  is_mapping cfg = false -> _read cfg (key :: rest) = PNone.
Proof.
  unfold _read, py_or. intros H.
  destruct (py_truthy cfg); [|reflexivity].
  destruct cfg; try reflexivity; discriminate H.
Qed.

Lemma read_below_non_mapping (cfg : pyval) (path : list string) (key : string)
    (rest : list string) :
  is_mapping (_read cfg path) = false -> _read cfg (path ++ key :: rest) = PNone.
Proof.
  intros H. unfold _read in *. rewrite read_path_app. now apply read_path_not_mapping.
Qed.

Lemma ttl_without_overrides (cfg : pyval) (feature : option string) :
  positive_int (_read cfg ["sync"; "gmt"; lower (or_empty feature) ++ "_sec"]) = Ok None ->
  positive_int (_read cfg ["sync"; "gmt"; lower (or_empty feature) ++ "_days"]) = Ok None ->
  positive_int (_read cfg ["sync"; "gmt_quarantine_days"]) = Ok None ->
  get_quarantine_ttl_sec cfg feature = Ok (default_days (lower (or_empty feature)) * 86400).
Proof.
  intros H1 H2 H3. unfold get_quarantine_ttl_sec. cbv zeta. rewrite H1, H2, H3.
  rewrite days_get_default_days. f_equal. lia.
Qed.

Lemma positive_int_pos (v : pyval) (z : Z) : positive_int v = Ok (Some z) -> 0 < z.
Proof. rewrite <- override_value_positive_int. apply override_value_pos. Qed.

(** X6.  A configuration of the wrong shape is no error and no override:
    when the configuration is not a mapping, or its [sync] entry is missing
    or not a mapping, every feature gets its static default. *)
Theorem ttl_default_on_malformed_config :
  forall (cfg : pyval) (feature : option string),
    is_mapping cfg = false \/ is_mapping (_read cfg ["sync"]) = false ->
    get_quarantine_ttl_sec cfg feature
    = Ok (default_days (lower (or_empty feature)) * 86400).
Proof.
  intros cfg feature H.
  assert (Hnone : forall rest key, _read cfg ("sync" :: key :: rest) = PNone).
  { intros rest key. destruct H as [H|H].
    - now apply read_non_mapping_cfg.
    - exact (read_below_non_mapping cfg ["sync"] key rest H). }
  apply ttl_without_overrides; rewrite Hnone; reflexivity.
Qed.

Lemma ttl_default_on_malformed_config_witness :
  get_quarantine_ttl_sec (PStr "sync.gmt.ratings_sec=10") (Some "ratings")
  = Ok (3 * 86400) /\
  get_quarantine_ttl_sec (PDict [("sync", PInt 5)]) (Some "history") = Ok (2 * 86400).
Proof.
  split.
  - apply (ttl_default_on_malformed_config (PStr "sync.gmt.ratings_sec=10") (Some "ratings")).
    left; reflexivity.
  - apply (ttl_default_on_malformed_config (PDict [("sync", PInt 5)]) (Some "history")).
    right; reflexivity.
Defined.

(** X7.  The resolver reads the feature name without regard to letter
    case, and a missing feature as the empty name: the settings consulted
    and the default are those of the lower-cased name. *)
Theorem ttl_feature_case_insensitive :
  forall (cfg : pyval) (feature : option string),
    get_quarantine_ttl_sec cfg (Some (lower (or_empty feature)))
    = get_quarantine_ttl_sec cfg feature /\
    get_quarantine_ttl_sec cfg None = get_quarantine_ttl_sec cfg (Some EmptyString).
Proof.
  intros cfg feature. split; [|reflexivity].
  unfold get_quarantine_ttl_sec. simpl or_empty. now rewrite lower_idem.
Qed.

(** X8.  Unless the per-feature seconds override takes effect, a TTL that
    the resolver returns is a whole number of days, and at least one day;
    a float setting counts for the days of its whole part. *)
Theorem ttl_whole_days_without_seconds_override :
  forall (cfg : pyval) (feature : option string) (n : Z),
    positive_int (_read cfg ["sync"; "gmt"; lower (or_empty feature) ++ "_sec"]) = Ok None ->
    get_quarantine_ttl_sec cfg feature = Ok n ->
    exists days, 0 < days /\ n = days * 86400.
Proof.
  intros cfg feature n H. unfold get_quarantine_ttl_sec. cbv zeta. rewrite H.
  destruct (positive_int (_read cfg ["sync"; "gmt"; lower (or_empty feature) ++ "_days"]))
    as [[d|]|e] eqn:Hd; [| |discriminate].
  { intros E; injection E as <-. exists d. split; [exact (positive_int_pos _ _ Hd)|lia]. }
  destruct (positive_int (_read cfg ["sync"; "gmt_quarantine_days"]))
    as [[d|]|e] eqn:Hg; [| |discriminate].
  { intros E; injection E as <-. exists d. split; [exact (positive_int_pos _ _ Hg)|lia]. }
  rewrite days_get_default_days. intros E; injection E as <-.
  exists (default_days (lower (or_empty feature))).
  split; [apply default_days_pos|lia].
Qed.

Lemma ttl_whole_days_without_seconds_override_witness :
  exists days, 0 < days /\ 86400 = days * 86400.
Proof.
  apply (ttl_whole_days_without_seconds_override (gmt_cfg "history_days" one_and_a_half)
           (Some "history") 86400).
  - reflexivity.
  - vm_compute. reflexivity.
Defined.

(** X9.  The global days setting is the TTL of every feature that has no
    override of its own: with no per-feature table, a positive
    [gmt_quarantine_days] of [n] gives [n] days whatever the feature, known
    or not. *)
Theorem ttl_global_days_for_every_feature :
  forall (cfg : pyval) (feature : option string) (n : Z),
    is_mapping (_read cfg ["sync"; "gmt"]) = false ->
    _read cfg ["sync"; "gmt_quarantine_days"] = PInt n ->
    0 < n ->
    get_quarantine_ttl_sec cfg feature = Ok (n * 86400).
Proof.
  intros cfg feature n Hgmt Hg Hn. unfold get_quarantine_ttl_sec.
  assert (Hnone : forall key, _read cfg ["sync"; "gmt"; key] = PNone)
    by (intros key; exact (read_below_non_mapping cfg ["sync"; "gmt"] key [] Hgmt)).
  cbv zeta. rewrite !Hnone, Hg. unfold positive_int. simpl.
  destruct (Z.ltb_spec 0 n); [f_equal; lia|lia].
Qed.

Lemma ttl_global_days_for_every_feature_witness :
  get_quarantine_ttl_sec (PDict [("sync", PDict [("gmt_quarantine_days", PInt 5)])])
    (Some "podcasts") = Ok (5 * 86400).
Proof.
  apply (ttl_global_days_for_every_feature
           (PDict [("sync", PDict [("gmt_quarantine_days", PInt 5)])]) (Some "podcasts") 5).
  - reflexivity.
  - reflexivity.
  - lia.
Defined.


(** ** Further properties: canonical key *)

Lemma first_id_in (ids : dict) (keys : list string) (k : string) (v : pyval) :
  first_id ids keys = Some (k, v) ->
  In k keys /\ lookup k ids = Some v /\ py_truthy v = true.
Proof.
  induction keys as [|k' rest IH]; simpl; [discriminate|].
  destruct (lookup k' ids) as [v'|] eqn:El.
  - destruct (py_truthy v') eqn:Et.
    + intros E; injection E as <- <-. auto.
    + intros E. destruct (IH E) as (Hin & H). auto.
  - intros E. destruct (IH E) as (Hin & H). auto.
Qed.

Lemma ids_of_cons (d : dict) (rest : dict) :
  ids_of (("ids", PDict d) :: rest) = PDict d.
Proof. destruct d; reflexivity. Qed.

Lemma id_key_lower (k : string) : In k _ID_KEYS -> lower k = k.
Proof.
  simpl. intros [<-|[<-|[<-|[<-|[<-|[<-|[<-|[]]]]]]]]; reflexivity.
Qed.



(** X11.  A key built from an identifier is in lower case throughout:
    lower-casing it changes nothing. *)
Theorem canonical_key_identifier_lower_case :
  forall (item ids : dict) (k : string) (v : pyval) (key : string),
    ids_of item = PDict ids ->
    first_id ids _ID_KEYS = Some (k, v) ->
    canonical_key item = Ok key ->
    lower key = key.
Proof.
  intros item ids k v key H E.
  rewrite (canonical_key_by_first_id item ids H), E.
  destruct (py_str v) as [s|e]; [|discriminate].
  intros Hk; injection Hk as <-.
  destruct (first_id_in _ _ _ _ E) as (Hin & _).
  rewrite lower_app, (id_key_lower k Hin). simpl. now rewrite lower_idem.
Qed.

Lemma canonical_key_identifier_lower_case_witness :
  lower "slug:the-matrix-1999" = "slug:the-matrix-1999".
Proof.
  apply (canonical_key_identifier_lower_case
           [("ids", PDict [("slug", PStr "The-Matrix-1999")])]
           [("slug", PStr "The-Matrix-1999")] "slug" (PStr "The-Matrix-1999")).
  - reflexivity.
  - reflexivity.
  - reflexivity.
Defined.

Lemma first_id_skip_falsy (d : dict) (k : string) (v : pyval) (keys : list string) :
  py_truthy v = false -> lookup k d = None ->
  first_id ((k, v) :: d) keys = first_id d keys.
Proof.
  intros Hv Hk. induction keys as [|k' rest IH]; simpl; [reflexivity|].
  destruct (String.eqb_spec k k') as [<-|_].
  - now rewrite Hv, Hk.
  - now rewrite IH.
Qed.

Lemma id_loop_item_ext (ids : pyval) (keys : list string) (item item' : dict) :
  fallback_key item = fallback_key item' ->
  id_loop ids keys item = id_loop ids keys item'.
Proof.
  intros H. induction keys as [|k rest IH]; simpl; [exact H|].
  destruct (py_get ids k) as [v|e]; [|reflexivity].
  destruct (py_truthy v); [reflexivity|exact IH].
Qed.

(** X12.  An identifier whose value is empty counts as absent: [None],
    zero, [False], the empty text or an empty mapping under an identifier
    name gives the key that the entity would have without that entry. *)
Theorem canonical_key_skips_empty_identifier :
  forall (ids rest : dict) (k : string) (v : pyval),
    py_truthy v = false ->
    lookup k ids = None ->
    canonical_key (("ids", PDict ((k, v) :: ids)) :: rest)
    = canonical_key (("ids", PDict ids) :: rest).
Proof.
  intros ids rest k v Hv Hk.
  rewrite (canonical_key_by_first_id _ _ (ids_of_cons ((k, v) :: ids) rest)).
  rewrite (canonical_key_by_first_id _ _ (ids_of_cons ids rest)).
  rewrite (first_id_skip_falsy ids k v _ Hv Hk).
  destruct (first_id ids _ID_KEYS) as [[k' v']|]; reflexivity.
Qed.

Lemma canonical_key_skips_empty_identifier_witness :
  canonical_key [("ids", PDict [("tmdb", PInt 0); ("imdb", PStr "tt0133093")])]
  = canonical_key [("ids", PDict [("imdb", PStr "tt0133093")])].
Proof.
  apply (canonical_key_skips_empty_identifier [("imdb", PStr "tt0133093")] [] "tmdb" (PInt 0)).
  - reflexivity.
  - reflexivity.
Defined.

Lemma title_text (t : string) :
  py_str (py_or (PStr t) (PStr EmptyString)) = Ok t.
Proof. destruct t; reflexivity. Qed.

(** X13.  The title enters the key trimmed and in lower case: two entities
    that differ only in the letter case of the title and in the blanks
    around it get the same key. *)
Theorem canonical_key_title_stable :
  forall (rest : dict) (t t' : string),
    lower (strip t) = lower (strip t') ->
    canonical_key (("title", PStr t) :: rest) = canonical_key (("title", PStr t') :: rest).
Proof.
  intros rest t t' H. unfold canonical_key.
  change (dict_get (("title", PStr t) :: rest) "ids" PNone) with (dict_get rest "ids" PNone).
  change (dict_get (("title", PStr t') :: rest) "ids" PNone) with (dict_get rest "ids" PNone).
  apply id_loop_item_ext. unfold fallback_key.
  change (dict_get (("title", PStr t) :: rest) "type" PNone) with (dict_get rest "type" PNone).
  change (dict_get (("title", PStr t') :: rest) "type" PNone) with (dict_get rest "type" PNone).
  change (dict_get (("title", PStr t) :: rest) "year" PNone) with (dict_get rest "year" PNone).
  change (dict_get (("title", PStr t') :: rest) "year" PNone) with (dict_get rest "year" PNone).
  change (dict_get (("title", PStr t) :: rest) "title" PNone) with (PStr t).
  change (dict_get (("title", PStr t') :: rest) "title" PNone) with (PStr t').
  rewrite !title_text, H. reflexivity.
Qed.

Lemma canonical_key_title_stable_witness :
  canonical_key [("title", PStr "  The MATRIX "); ("type", PStr "movie"); ("year", PInt 1999)]
  = canonical_key [("title", PStr "the matrix"); ("type", PStr "movie"); ("year", PInt 1999)].
Proof.
  apply (canonical_key_title_stable [("type", PStr "movie"); ("year", PInt 1999)]
           "  The MATRIX " "the matrix").
  reflexivity.
Defined.


(** ** Further properties: configuration lookup *)

Lemma cfg_attr_shape (name : string) (a : attr (unit -> result pyval)) :
  exists r, cfg_attr name a = (if is_method a then [ConfigCall name] else [], Ok r).
Proof.
  destruct a as [|e|v|f]; unfold cfg_attr; simpl.
  - now eexists.
  - destruct e; now eexists.
  - destruct (is_mapping v); now eexists.
  - unfold invoke, bind. destruct (f tt); simpl; now eexists.
Qed.

(** X14.  The configuration lookup never raises, whatever the accessors of
    the store do.  It calls an accessor only if it is a method, each at
    most once, in the order [cfg], [config], [get_config]. *)
Theorem cfg_from_store_never_raises :
  forall store : Store,
    exists (v : pyval) (b1 b2 b3 : bool),
      _cfg_from_store store =
      (((if b1 then [ConfigCall "cfg"] else []) ++
        (if b2 then [ConfigCall "config"] else []) ++
        (if b3 then [ConfigCall "get_config"] else []))%list, Ok v) /\
      (b1 = true -> is_method (cfg store) = true) /\
      (b2 = true -> is_method (config store) = true) /\
      (b3 = true -> is_method (get_config store) = true).
Proof.
  intros store. unfold _cfg_from_store, next.
  destruct (cfg_attr_shape "cfg" (cfg store)) as (r1 & ->).
  destruct (cfg_attr_shape "config" (config store)) as (r2 & ->).
  destruct (cfg_attr_shape "get_config" (get_config store)) as (r3 & ->).
  destruct r1 as [v1|]; simpl.
  { exists v1, (is_method (cfg store)), false, false.
    destruct (is_method (cfg store)); simpl; repeat split; auto; discriminate. }
  destruct r2 as [v2|]; simpl.
  { exists v2, (is_method (cfg store)), (is_method (config store)), false.
    destruct (is_method (cfg store)), (is_method (config store)); simpl;
      repeat split; auto; discriminate. }
  destruct r3 as [v3|]; simpl.
  - exists v3, (is_method (cfg store)), (is_method (config store)),
      (is_method (get_config store)).
    destruct (is_method (cfg store)), (is_method (config store)),
      (is_method (get_config store)); simpl; repeat split; auto.
  - exists PNone, (is_method (cfg store)), (is_method (config store)),
      (is_method (get_config store)).
    destruct (is_method (cfg store)), (is_method (config store)),
      (is_method (get_config store)); simpl; repeat split; auto.
Qed.

Lemma cfg_attr_passed_over (name : string) (a : attr (unit -> result pyval)) :
  passed_over a -> answer (cfg_attr name a) = Ok None.
Proof.
  unfold cfg_attr, passed_over. destruct a as [|e|v|f]; simpl; intros H; try reflexivity.
  - destruct e; reflexivity.
  - now rewrite H.
  - destruct H as (e & He). unfold invoke, bind. now rewrite He.
Qed.

(** X15.  The first accessor that answers settles the configuration.  A
    [cfg] method that returns normally gives its value, [None] included,
    and a [cfg] attribute holding a [dict] gives that [dict]; in both cases
    [config] and [get_config] are not looked at.  A [cfg] that is missing,
    raises, or holds something else is passed over: the configuration is
    then the one the store would give without that attribute. *)
Theorem cfg_from_store_first_answer_wins :
  forall store : Store,
    (forall f v, cfg store = Method f -> f tt = Ok v ->
                 _cfg_from_store store = ([ConfigCall "cfg"], Ok v)) /\
    (forall d, cfg store = Plain (PDict d) -> _cfg_from_store store = ([], Ok (PDict d))) /\
    (passed_over (cfg store) -> policy_cfg store = policy_cfg (without_cfg store)).
Proof.
  intros store. split; [|split].
  - intros f v Hc Hf. unfold _cfg_from_store, next, cfg_attr at 1. rewrite Hc.
    simpl. unfold invoke, bind. rewrite Hf. reflexivity.
  - intros d Hc. unfold _cfg_from_store, next, cfg_attr at 1. rewrite Hc. reflexivity.
  - intros Hp. unfold policy_cfg, _cfg_from_store, next. simpl.
    pose proof (cfg_attr_passed_over "cfg" (cfg store) Hp) as H1.
    destruct (cfg_attr "cfg" (cfg store)) as [l1 r1]. unfold answer in H1. simpl in H1.
    subst r1.
    destruct (cfg_attr_total "config" (config store)) as (l2 & r2 & ->).
    destruct (cfg_attr_total "get_config" (get_config store)) as (l3 & r3 & ->).
    destruct r2 as [v2|]; [reflexivity|].
    destruct r3 as [v3|]; reflexivity.
Qed.

Lemma cfg_from_store_first_answer_wins_witness :
  _cfg_from_store shadowed_cfg_store = ([ConfigCall "cfg"], Ok PNone) /\
  policy_cfg flaky_cfg_store = policy_cfg (without_cfg flaky_cfg_store).
Proof.
  destruct (cfg_from_store_first_answer_wins shadowed_cfg_store) as (H & _).
  destruct (cfg_from_store_first_answer_wins flaky_cfg_store) as (_ & _ & H').
  split.
  - exact (H (fun _ => Ok PNone) PNone eq_refl eq_refl).
  - apply H'. simpl. eexists; reflexivity.
Defined.

(** ** Further properties: suppression predicate *)

Lemma run_depends_on_coerced_scope (resolver : dict -> result string) (store : Store)
    (entity : dict) (scope scope' : scope_arg) (pair_id : option string)
    (ttl_sec : option Z) (now : float) :
  _coerce_scope scope = _coerce_scope scope' ->
  should_suppress_write resolver store entity scope pair_id ttl_sec now
  = should_suppress_write resolver store entity scope' pair_id ttl_sec now.
Proof.
  intros H. unfold should_suppress_write, try_block. now rewrite H.
Qed.

(** X16.  A mapping scope stands for the [Scope] object with the same
    list and dimension, whatever the letter case of its two texts: both
    give the same answer and make the same calls on the store. *)
Theorem mapping_scope_like_scope_object :
  forall (resolver : dict -> result string) (store : Store) (entity : dict)
         (s : Scope) (m : dict) (l d : string) (pair_id : option string)
         (ttl_sec : option Z) (now : float),
    lookup "list" m = Some (PStr l) ->
    lookup "dim" m = Some (PStr d) ->
    lower l = ScopeList_str (scope_list s) ->
    lower d = ScopeDim_str (scope_dim s) ->
    should_suppress_write resolver store entity (ScopeVal (PDict m)) pair_id ttl_sec now
    = should_suppress_write resolver store entity (ScopeObj s) pair_id ttl_sec now.
Proof.
  intros resolver store entity s m l d pair_id ttl_sec now Hl Hd El Ed.
  apply run_depends_on_coerced_scope. unfold _coerce_scope, dict_get.
  rewrite Hl, Hd. simpl. now rewrite El, Ed.
Qed.

Lemma mapping_scope_like_scope_object_witness :
  should_suppress_write canonical_key (ts_store (PInt 999) PNone) matrix
    (ScopeVal (PDict [("dim", PStr "RATE"); ("list", PStr "Ratings")])) None None (seconds 1000)
  = should_suppress_write canonical_key (ts_store (PInt 999) PNone) matrix
      rate_ratings None None (seconds 1000).
Proof.
  apply (mapping_scope_like_scope_object canonical_key (ts_store (PInt 999) PNone) matrix
           {| scope_list := ratings; scope_dim := rate |}
           [("dim", PStr "RATE"); ("list", PStr "Ratings")] "Ratings" "RATE");
    reflexivity.
Defined.

(** X17.  When the scope is refused or the key cannot be computed, the
    store is left alone: not one call is made on it, its configuration
    accessors included, and the answer is [False]. *)
Theorem no_store_contact_without_scope_and_key :
  forall (resolver : dict -> result string) (store : Store) (entity : dict)
         (scope : scope_arg) (pair_id : option string) (ttl_sec : option Z) (now : float),
    (exists e, _coerce_scope scope = Raise e) \/ (exists e, resolver entity = Raise e) ->
    should_suppress_write resolver store entity scope pair_id ttl_sec now = ([], Ok false).
Proof.
  intros resolver store entity scope pair_id ttl_sec now [[e H]|[e H]].
  - exact (scope_raise_false _ _ _ _ _ _ _ _ H).
  - exact (key_raise_false _ _ _ _ _ _ _ _ H).
Qed.

Lemma no_store_contact_without_scope_and_key_witness :
  should_suppress_write canonical_key broken_store [("ids", PInt 603)] rate_ratings
    None None (seconds 1000) = ([], Ok false).
Proof.
  apply (no_store_contact_without_scope_and_key canonical_key broken_store [("ids", PInt 603)]).
  right. eexists; reflexivity.
Defined.


Lemma by_record_window (store : Store) (q : query_args) :
  exists ov : option pyval, forall ttl now,
    match answer (by_record store q ttl now) with Ok (Some b) => b | _ => false end
    = match ov with Some v => stamp_decision v ttl now | None => false end.
Proof.
  unfold by_record, invoke, bind, lift, ret, answer.
  destruct (get store) as [|e|v|f]; try (exists None; reflexivity).
  { exists None. intros ttl now. destruct e; reflexivity. }
  simpl. destruct (f q) as [rec|e]; [|exists None; reflexivity].
  destruct rec as [| | | | |d]; try (exists None; reflexivity).
  unfold dict_has, dict_get. destruct (lookup "ts" d) as [v|]; [|exists None; reflexivity].
  exists (Some v). intros ttl now. unfold stamp_decision, stamp_outcome. simpl.
  destruct (py_int v) as [z|e]; simpl; [|reflexivity].
  destruct (elapsed_lt now z ttl) as [b|e]; reflexivity.
Qed.

Lemma next_after_none (l : list call) (s : M (option bool)) :
  match answer (next (l, Ok None) s) with Ok (Some b) => b | _ => false end
  = match answer s with Ok (Some b) => b | _ => false end.
Proof.
  unfold next, bind, answer, ret. destruct s as [l' [[b|]|e]]; reflexivity.
Qed.

(** Without the direct predicate, the decision of the probe rests on at
    most one timestamp value: either it is [False] whatever the clock and
    the TTL, or the store has given a value [v] and the decision is the one
    drawn from [v]. *)
Lemma probe_window (store : Store) (key feat want_dim : string) (pair_id : option string) :
  unsupported (should_suppress_by_key store) ->
  exists ov : option pyval, forall ttl now,
    match answer (capability_probe store key feat want_dim ttl pair_id now) with
    | Ok (Some b) => b
    | _ => false
    end
    = match ov with Some v => stamp_decision v ttl now | None => false end.
Proof.
  intros Hnp. unfold capability_probe.
  set (q := {| q_key := key; q_list := feat; q_dim := want_dim; q_pair_id := pair_id |}).
  destruct (by_record_window store q) as (ovr & Hr).
  assert (Hp : forall a, by_predicate store a = ([], Ok None))
    by (intros a; now apply by_predicate_unsupported).
  assert (Hfall : forall l ttl now,
             match answer (next (l, Ok None) (by_record store q ttl now)) with
             | Ok (Some b) => b
             | _ => false
             end = match ovr with Some v => stamp_decision v ttl now | None => false end)
    by (intros l ttl now; rewrite next_after_none; apply Hr).
  destruct (last_negative_ts store) as [|e|v|f] eqn:Hl.
  - exists ovr. intros ttl now. rewrite Hp, next_after_none.
    unfold by_last_ts, lift, bind. rewrite Hl. apply Hfall.
  - destruct e;
      try (exists None; intros ttl now; rewrite Hp, next_after_none;
           unfold by_last_ts, lift, bind; rewrite Hl; reflexivity).
    exists ovr. intros ttl now. rewrite Hp, next_after_none.
    unfold by_last_ts, lift, bind. rewrite Hl. apply Hfall.
  - exists ovr. intros ttl now. rewrite Hp, next_after_none.
    unfold by_last_ts, lift, bind. rewrite Hl. apply Hfall.
  - destruct (f q) as [ts|e] eqn:Hq.
    + destruct (is_none ts) eqn:Hn.
      * exists ovr. intros ttl now. rewrite Hp, next_after_none.
        assert (Hnt : no_timestamp store q).
        { unfold no_timestamp. rewrite Hl, Hq. destruct ts; try discriminate; reflexivity. }
        rewrite (by_last_ts_none _ _ ttl now Hnt). apply Hfall.
      * exists (Some ts). intros ttl now. rewrite Hp, next_after_none.
        assert (Hne : ts <> PNone) by (intros ->; discriminate Hn).
        rewrite (by_last_ts_some _ _ ttl now _ _ Hl Hq Hne).
        unfold stamp_decision, next, bind, answer.
        destruct (stamp_outcome ts ttl now) as [b|e]; reflexivity.
    + exists None. intros ttl now. rewrite Hp, next_after_none.
      unfold by_last_ts, lift, bind, invoke. rewrite Hl. simpl. rewrite Hq. reflexivity.
Qed.

(** The same for a whole run. *)
Lemma run_window (resolver : dict -> result string) (store : Store) (entity : dict)
    (scope : scope_arg) (pair_id : option string) :
  unsupported (should_suppress_by_key store) ->
  exists ov : option pyval, forall ttl_sec now,
    answer (should_suppress_write resolver store entity scope pair_id ttl_sec now)
    = Ok match ov, run_ttl store scope ttl_sec with
         | Some v, Ok ttl => stamp_decision v ttl now
         | _, _ => false
         end.
Proof.
  intros Hnp. unfold run_ttl.
  destruct (_coerce_scope scope) as [[feat dim]|e] eqn:Hs.
  2: { exists None. intros. now rewrite (scope_raise_false _ _ _ _ _ _ _ _ Hs). }
  destruct (resolver entity) as [key|e] eqn:Hk.
  2: { exists None. intros. now rewrite (key_raise_false _ _ _ _ _ _ _ _ Hk). }
  destruct (probe_window store key feat (opposing (Some dim)) pair_id Hnp) as (ov & H).
  exists ov. intros ttl_sec now.
  destruct (ttl_in_force store feat ttl_sec) as [ttl|e] eqn:Ht.
  - rewrite (should_suppress_write_run _ _ _ _ _ _ _ _ _ _ _ Hs Hk Ht).
    cbv zeta. unfold answer at 1. simpl. rewrite H. now destruct ov.
  - rewrite (ttl_raise_false _ _ _ _ _ _ _ _ _ _ _ Hs Hk Ht). now destruct ov.
Qed.

Lemma float_of_int_finite (z : Z) (x : float) :
  float_of_int z = Ok x -> x = F (rounded (scaled z)).
Proof.
  unfold float_of_int, round_scaled, rounded.
  destruct (overflow_threshold <=? round_mag (Z.abs (scaled z))); [discriminate|].
  intros E; now injection E as <-.
Qed.

Lemma stamp_decision_later (v : pyval) (ttl n n' : Z) :
  n <= n' -> stamp_decision v ttl (F n) = false -> stamp_decision v ttl (F n') = false.
Proof.
  intros Hle. unfold stamp_decision, stamp_outcome.
  destruct (py_int v) as [z|e]; [|reflexivity]. unfold elapsed_lt.
  destruct (float_of_int z) as [zf|e] eqn:Ez; [|reflexivity].
  rewrite (float_of_int_finite z zf Ez). unfold fsub.
  apply flt_int_round_scaled_mono. lia.
Qed.

Lemma stamp_decision_longer (v : pyval) (t t' : Z) (now : float) :
  t <= t' -> stamp_decision v t now = true -> stamp_decision v t' now = true.
Proof.
  intros Hle. unfold stamp_decision, stamp_outcome.
  destruct (py_int v) as [z|e]; [|discriminate]. unfold elapsed_lt.
  destruct (float_of_int z) as [zf|e]; [|discriminate].
  now apply flt_int_mono_ttl.
Qed.

(** X18.  Suppression decided from a timestamp expires and does not come
    back: for a store without the direct predicate, once the answer is
    [False] at some finite reading of the clock it is [False] at every
    later reading, the store answering the same. *)
Theorem suppression_expires_for_good :
  forall (resolver : dict -> result string) (store : Store) (entity : dict)
         (scope : scope_arg) (pair_id : option string) (ttl_sec : option Z) (now now' : Z),
    unsupported (should_suppress_by_key store) ->
    now <= now' ->
    answer (should_suppress_write resolver store entity scope pair_id ttl_sec (F now))
    = Ok false ->
    answer (should_suppress_write resolver store entity scope pair_id ttl_sec (F now'))
    = Ok false.
Proof.
  intros resolver store entity scope pair_id ttl_sec now now' Hnp Hle.
  destruct (run_window resolver store entity scope pair_id Hnp) as (ov & H).
  rewrite !H. destruct ov as [v|]; [|reflexivity].
  destruct (run_ttl store scope ttl_sec) as [ttl|e]; [|reflexivity].
  intros E. injection E as E. f_equal. exact (stamp_decision_later v ttl now now' Hle E).
Qed.

Lemma suppression_expires_for_good_witness :
  answer (should_suppress_write canonical_key (ts_store (PInt 0) PNone) matrix rate_ratings
            None None (F (scaled 300000))) = Ok false.
Proof.
  apply (suppression_expires_for_good canonical_key (ts_store (PInt 0) PNone) matrix
           rate_ratings None None (scaled 259200) (scaled 300000)).
  - exact I.
  - vm_compute. discriminate.
  - vm_compute. reflexivity.
Defined.

(** X19.  A longer override never suppresses less: for a store without the
    direct predicate, a write suppressed under a non-zero TTL override is
    suppressed under every larger one. *)
Theorem longer_override_suppresses_more :
  forall (resolver : dict -> result string) (store : Store) (entity : dict)
         (scope : scope_arg) (pair_id : option string) (t t' : Z) (now : float),
    unsupported (should_suppress_by_key store) ->
    t <> 0 -> t' <> 0 -> t <= t' ->
    answer (should_suppress_write resolver store entity scope pair_id (Some t) now) = Ok true ->
    answer (should_suppress_write resolver store entity scope pair_id (Some t') now) = Ok true.
Proof.
  intros resolver store entity scope pair_id t t' now Hnp Ht Ht' Hle.
  destruct (run_window resolver store entity scope pair_id Hnp) as (ov & H).
  rewrite !H. destruct ov as [v|]; [|discriminate].
  unfold run_ttl. destruct (_coerce_scope scope) as [[feat dim]|e]; [|trivial].
  unfold ttl_in_force, ttl_or.
  destruct (Z.eqb_spec t 0); [contradiction|]. destruct (Z.eqb_spec t' 0); [contradiction|].
  intros E. injection E as E. f_equal. exact (stamp_decision_longer v t t' now Hle E).
Qed.

Lemma longer_override_suppresses_more_witness :
  answer (should_suppress_write canonical_key (ts_store (PInt 990) PNone) matrix rate_ratings
            None (Some 3600) (seconds 1000)) = Ok true.
Proof.
  apply (longer_override_suppresses_more canonical_key (ts_store (PInt 990) PNone) matrix
           rate_ratings None 60 3600 (seconds 1000)).
  - exact I.
  - discriminate.
  - discriminate.
  - lia.
  - vm_compute. reflexivity.
Defined.

Lemma ttl_in_force_pos (store : Store) (feat : string) (ttl_sec : option Z) (ttl : Z) :
  (forall t, ttl_sec = Some t -> 0 <= t) ->
  ttl_in_force store feat ttl_sec = Ok ttl -> 0 < ttl.
Proof.
  intros H. unfold ttl_in_force, ttl_or.
  pose proof (quarantineTTLSeconds_pos (policy_cfg store) (Some feat) ttl) as Hp.
  rewrite <- get_quarantine_ttl_sec_refines in Hp.
  destruct ttl_sec as [t|]; [|exact Hp].
  destruct (Z.eqb_spec t 0); [exact Hp|]. specialize (H t eq_refl).
  intros E; injection E as <-. lia.
Qed.

Lemma stamp_decision_not_in_past (v : pyval) (z ttl n m : Z) :
  py_int v = Ok z -> float_of_int z = Ok (F m) -> n <= m -> 0 < ttl ->
  stamp_decision v ttl (F n) = true.
Proof.
  intros Hv Hz Hle Ht. unfold stamp_decision, stamp_outcome, elapsed_lt.
  rewrite Hv, Hz. unfold fsub. apply flt_int_round_scaled_nonpos; lia.
Qed.

(** X20.  A timestamp that is not in the past always suppresses: for a
    store without the direct predicate and an override that is absent or
    not negative, a last-negative timestamp whose float is at or after the
    reading of the clock, from the timestamp lookup or from the record of
    the generic lookup, gives [True]. *)
Theorem timestamp_not_in_past_suppresses :
  forall (resolver : dict -> result string) (store : Store) (entity : dict)
         (scope : scope_arg) (pair_id : option string) (ttl_sec : option Z) (now : Z)
         (feat dim key : string) (ttl : Z),
    _coerce_scope scope = Ok (feat, dim) ->
    resolver entity = Ok key ->
    ttl_in_force store feat ttl_sec = Ok ttl ->
    unsupported (should_suppress_by_key store) ->
    (forall t, ttl_sec = Some t -> 0 <= t) ->
    let run := should_suppress_write resolver store entity scope pair_id ttl_sec (F now) in
    let q := {| q_key := key; q_list := feat; q_dim := opposing (Some dim);
                q_pair_id := pair_id |} in
    (forall last_ts ts z m,
        last_negative_ts store = Method last_ts -> last_ts q = Ok ts ->
        py_int ts = Ok z -> float_of_int z = Ok (F m) -> now <= m ->
        answer run = Ok true) /\
    (no_timestamp store q ->
     forall getrec d v z m,
       get store = Method getrec -> getrec q = Ok (PDict d) -> lookup "ts" d = Some v ->
       py_int v = Ok z -> float_of_int z = Ok (F m) -> now <= m ->
       answer run = Ok true).
Proof.
  intros resolver store entity scope pair_id ttl_sec now feat dim key ttl Hs Hk Ht Hnp Hpos
    run q.
  pose proof (ttl_in_force_pos store feat ttl_sec ttl Hpos Ht) as Hp.
  split.
  - intros last_ts ts z m Hl Hq Hz Hf Hle. subst run.
    rewrite (run_by_timestamp _ _ _ _ _ _ _ _ _ _ _ _ _ Hs Hk Ht Hnp Hl Hq
               (py_int_not_none _ _ Hz)).
    f_equal. exact (stamp_decision_not_in_past _ _ _ _ _ Hz Hf Hle Hp).
  - intros Hnt getrec d v z m Hg Hr Hv Hz Hf Hle. subst run.
    rewrite (run_by_record _ _ _ _ _ _ _ _ _ _ _ _ _ Hs Hk Ht Hnp Hnt Hg Hr).
    unfold record_decision. rewrite Hv.
    f_equal. exact (stamp_decision_not_in_past _ _ _ _ _ Hz Hf Hle Hp).
Qed.

Lemma timestamp_not_in_past_suppresses_witness :
  answer (should_suppress_write canonical_key (ts_store (PInt 5000) PNone) matrix rate_ratings
            None None (F (scaled 1000))) = Ok true.
Proof.
  destruct (timestamp_not_in_past_suppresses canonical_key (ts_store (PInt 5000) PNone)
              matrix rate_ratings None None (scaled 1000) "ratings" "rate" "tmdb:603" 259200
              eq_refl eq_refl eq_refl I) as (H & _).
  - discriminate.
  - apply (H (fun _ => Ok (PInt 5000)) (PInt 5000) 5000 (scaled 5000) eq_refl eq_refl eq_refl).
    + vm_compute. reflexivity.
    + vm_compute. discriminate.
Defined.

Lemma probe_same_capabilities (store store' : Store) (key feat want_dim : string)
    (ttl : Z) (pair_id : option string) (now : float) :
  should_suppress_by_key store = should_suppress_by_key store' ->
  last_negative_ts store = last_negative_ts store' ->
  get store = get store' ->
  capability_probe store key feat want_dim ttl pair_id now
  = capability_probe store' key feat want_dim ttl pair_id now.
Proof.
  intros Hp Hl Hg. unfold capability_probe, by_predicate, by_last_ts, by_record.
  now rewrite Hp, Hl, Hg.
Qed.

(** X21.  Under a non-zero TTL override the configuration of the store
    has no say in the answer: two stores with the same three lookups give
    the same answer, whatever their configuration accessors hold or
    raise. *)
Theorem override_makes_configuration_irrelevant :
  forall (resolver : dict -> result string) (store other : Store) (entity : dict)
         (scope : scope_arg) (pair_id : option string) (t : Z) (now : float),
    t <> 0 ->
    answer (should_suppress_write resolver (with_config_of other store) entity scope
              pair_id (Some t) now)
    = answer (should_suppress_write resolver store entity scope pair_id (Some t) now).
Proof.
  intros resolver store other entity scope pair_id t now Ht.
  destruct (_coerce_scope scope) as [[feat dim]|e] eqn:Hs.
  2: { now rewrite !(scope_raise_false _ _ _ _ _ _ _ _ Hs). }
  destruct (resolver entity) as [key|e] eqn:Hk.
  2: { now rewrite !(key_raise_false _ _ _ _ _ _ _ _ Hk). }
  assert (Httl : forall s, ttl_in_force s feat (Some t) = Ok t).
  { intros s. unfold ttl_in_force, ttl_or.
    destruct (Z.eqb_spec t 0); [contradiction|reflexivity]. }
  rewrite !(should_suppress_write_run _ _ _ _ _ _ _ _ _ _ _ Hs Hk (Httl _)).
  cbv zeta.
  rewrite (probe_same_capabilities (with_config_of other store) store); reflexivity.
Qed.

Lemma override_makes_configuration_irrelevant_witness :
  answer (should_suppress_write canonical_key
            (with_config_of shadowed_cfg_store (ts_store (PInt 990) PNone)) matrix
            rate_ratings None (Some 60) (seconds 1000))
  = answer (should_suppress_write canonical_key (ts_store (PInt 990) PNone) matrix
              rate_ratings None (Some 60) (seconds 1000)).
Proof.
  apply (override_makes_configuration_irrelevant canonical_key (ts_store (PInt 990) PNone)
           shadowed_cfg_store matrix rate_ratings None 60 (seconds 1000)).
  discriminate.
Defined.

Lemma by_record_calls (store : Store) (q : query_args) (ttl : Z) (now : float) :
  calls (by_record store q ttl now) = [] \/ calls (by_record store q ttl now) = [GetCall q].
Proof.
  unfold by_record, invoke, bind, lift, ret, raise, calls.
  destruct (get store) as [|e|v|f]; auto.
  { destruct e; auto. }
  simpl. destruct (f q) as [rec|e]; auto.
  destruct rec as [| | | | |d]; auto.
  destruct (dict_has d "ts"); auto.
  destruct (py_int (dict_get d "ts" (PInt 0))) as [z|e]; auto.
  destruct (elapsed_lt now z ttl); auto.
Qed.

Lemma next_calls {A} (s1 s2 : M (option A)) :
  calls (next s1 s2) = calls s1 \/
  (answer s1 = Ok None /\ calls (next s1 s2) = (calls s1 ++ calls s2)%list).
Proof.
  unfold next, bind, calls, answer, ret.
  destruct s1 as [l1 [[v|]|e]]; simpl.
  - left. now rewrite app_nil_r.
  - right. split; [reflexivity|]. now destruct s2.
  - now left.
Qed.

Lemma by_predicate_calls (store : Store) (a : suppress_args) :
  by_predicate store a = ([], Ok None) \/
  (calls (by_predicate store a) = [] /\ answer (by_predicate store a) <> Ok None) \/
  (calls (by_predicate store a) = [SuppressByKeyCall a] /\
   answer (by_predicate store a) <> Ok None).
Proof.
  unfold by_predicate, invoke, bind, lift, ret, raise, calls, answer.
  destruct (should_suppress_by_key store) as [|e|v|f]; auto.
  - destruct e; auto; right; left; (split; [reflexivity|discriminate]).
  - right; right. simpl. destruct (f a); split; try reflexivity; discriminate.
Qed.

Lemma by_last_ts_calls (store : Store) (q : query_args) (ttl : Z) (now : float) :
  by_last_ts store q ttl now = ([], Ok None) \/
  by_last_ts store q ttl now = ([LastNegativeTsCall q], Ok None) \/
  (answer (by_last_ts store q ttl now) <> Ok None /\
   (calls (by_last_ts store q ttl now) = [] \/
    calls (by_last_ts store q ttl now) = [LastNegativeTsCall q])).
Proof.
  unfold by_last_ts, invoke, bind, lift, ret, raise, calls, answer.
  destruct (last_negative_ts store) as [|e|v|f]; auto.
  - destruct e; auto; right; right; split; try discriminate; now left.
  - simpl. destruct (f q) as [ts|e].
    + destruct (is_none ts); simpl; auto.
      destruct (py_int ts) as [z|e]; simpl.
      * destruct (elapsed_lt now z ttl); right; right; split; try discriminate; now right.
      * right; right; split; try discriminate; now right.
    + right; right; split; [discriminate|now right].
Qed.

(** X22.  What a run may ask the store, over all inputs and all stores:
    nothing at all, or the configuration lookup followed by at most two
    queries, which are one call of the direct predicate, or one call of the
    timestamp lookup, or one call of the generic lookup, or the timestamp
    lookup followed by the generic lookup.  Every query carries the key of
    the entity, the feature of the scope, the opposite of the written
    dimension and the pair id of the call. *)
Theorem store_calls_of_a_run :
  forall (resolver : dict -> result string) (store : Store) (entity : dict)
         (scope : scope_arg) (pair_id : option string) (ttl_sec : option Z) (now : float),
    let run := should_suppress_write resolver store entity scope pair_id ttl_sec now in
    calls run = [] \/
    exists feat dim key,
      _coerce_scope scope = Ok (feat, dim) /\ resolver entity = Ok key /\
      let q := {| q_key := key; q_list := feat; q_dim := opposing (Some dim);
                  q_pair_id := pair_id |} in
      exists tail,
        calls run = (cfg_log store ++ tail)%list /\
        (tail = [] \/
         (exists ttl, ttl_in_force store feat ttl_sec = Ok ttl /\
            tail = [SuppressByKeyCall
                      {| sa_key := key; sa_list := feat; sa_dim := opposing (Some dim);
                         sa_ttl_sec := ttl; sa_pair_id := pair_id |}]) \/
         tail = [LastNegativeTsCall q] \/
         tail = [GetCall q] \/ tail = [LastNegativeTsCall q; GetCall q]).
Proof.
  intros resolver store entity scope pair_id ttl_sec now run. subst run.
  destruct (_coerce_scope scope) as [[feat dim]|e] eqn:Hs.
  2: { left. now rewrite (scope_raise_false _ _ _ _ _ _ _ _ Hs). }
  destruct (resolver entity) as [key|e] eqn:Hk.
  2: { left. now rewrite (key_raise_false _ _ _ _ _ _ _ _ Hk). }
  right. exists feat, dim, key. split; [reflexivity|split; [reflexivity|]].
  cbv zeta.
  destruct (ttl_in_force store feat ttl_sec) as [ttl|e] eqn:Ht.
  2: { rewrite (ttl_raise_false _ _ _ _ _ _ _ _ _ _ _ Hs Hk Ht).
       exists []. split; [now rewrite app_nil_r|now left]. }
  rewrite (should_suppress_write_run _ _ _ _ _ _ _ _ _ _ _ Hs Hk Ht).
  cbv zeta. unfold calls at 1. simpl. eexists; split; [reflexivity|].
  unfold capability_probe.
  set (q := {| q_key := key; q_list := feat; q_dim := opposing (Some dim);
               q_pair_id := pair_id |}).
  set (a := {| sa_key := key; sa_list := feat; sa_dim := opposing (Some dim);
               sa_ttl_sec := ttl; sa_pair_id := pair_id |}).
  pose proof (by_record_calls store q ttl now) as Hrec.
  destruct (next_calls (by_predicate store a)
              (next (by_last_ts store q ttl now) (by_record store q ttl now))) as [E|[En E]];
    rewrite E; clear E.
  { destruct (by_predicate_calls store a) as [->|[[-> _]|[-> _]]]; auto.
    right; left. now exists ttl. }
  destruct (by_predicate_calls store a) as [->|[[_ H]|[_ H]]]; try contradiction.
  simpl.
  destruct (next_calls (by_last_ts store q ttl now) (by_record store q ttl now))
    as [E|[En' E]]; rewrite E; clear E.
  { destruct (by_last_ts_calls store q ttl now) as [->|[->|[_ [->| ->]]]]; auto. }
  destruct (by_last_ts_calls store q ttl now) as [->|[->|[H _]]]; try contradiction;
    simpl; destruct Hrec as [->| ->]; auto 6.
Qed.

(** ** Further properties: timestamps given as text *)

Lemma digits_value_acc (d : Decimal.uint) (acc : positive) :
  digits_value (NilEmpty.string_of_uint d) (Z.pos acc) true
  = Some (Z.pos (Pos.of_uint_acc d acc)).
Proof.
  revert acc. induction d; intros acc; [reflexivity|..];
    cbn [NilEmpty.string_of_uint digits_value Pos.of_uint_acc];
    match goal with
    | |- context [digit_value ?c] =>
        let v := eval vm_compute in (digit_value c) in
        change (digit_value c) with v
    end; cbv iota; rewrite <- IHd; f_equal; lia.
Qed.

Lemma digits_value_uint (d : Decimal.uint) (after_digit : bool) :
  d <> Decimal.Nil \/ after_digit = true ->
  digits_value (NilEmpty.string_of_uint d) 0 after_digit = Some (Z.of_N (Pos.of_uint d)).
Proof.
  revert after_digit. induction d; intros after_digit H.
  - destruct H as [H| ->]; [contradiction|reflexivity].
  - cbn [NilEmpty.string_of_uint digits_value Pos.of_uint].
    change (digit_value "0") with (Some 0). cbv iota.
    change (10 * 0 + 0) with 0. apply IHd. now right.
  - exact (digits_value_acc d 1).
  - exact (digits_value_acc d 2).
  - exact (digits_value_acc d 3).
  - exact (digits_value_acc d 4).
  - exact (digits_value_acc d 5).
  - exact (digits_value_acc d 6).
  - exact (digits_value_acc d 7).
  - exact (digits_value_acc d 8).
  - exact (digits_value_acc d 9).
Qed.

Lemma rstrip_digits (d : Decimal.uint) :
  rstrip_with is_int_space (NilEmpty.string_of_uint d) = NilEmpty.string_of_uint d.
Proof.
  induction d; [reflexivity|..];
    cbn [NilEmpty.string_of_uint rstrip_with]; rewrite IHd;
    destruct (NilEmpty.string_of_uint d); reflexivity.
Qed.

Lemma strip_uint (d : Decimal.uint) :
  rstrip_with is_int_space (lstrip_with is_int_space (NilEmpty.string_of_uint d))
  = NilEmpty.string_of_uint d.
Proof.
  replace (lstrip_with is_int_space (NilEmpty.string_of_uint d))
    with (NilEmpty.string_of_uint d) by (destruct d; reflexivity).
  apply rstrip_digits.
Qed.

Lemma strip_minus_uint (d : Decimal.uint) :
  d <> Decimal.Nil ->
  rstrip_with is_int_space (lstrip_with is_int_space (String "-" (NilEmpty.string_of_uint d)))
  = String "-" (NilEmpty.string_of_uint d).
Proof.
  intros Hd.
  change (lstrip_with is_int_space (String "-" (NilEmpty.string_of_uint d)))
    with (String "-" (NilEmpty.string_of_uint d)).
  cbn [rstrip_with]. rewrite rstrip_digits.
  destruct (NilEmpty.string_of_uint d) eqn:Es; [|reflexivity].
  destruct d; try contradiction; discriminate Es.
Qed.

Lemma int_of_str_uint (d : Decimal.uint) :
  d <> Decimal.Nil ->
  ((count_digits (NilEmpty.string_of_uint d) <= max_str_digits)%nat ->
   int_of_str (NilEmpty.string_of_uint d) = Some (Z.of_N (Pos.of_uint d))) /\
  ((count_digits (String "-" (NilEmpty.string_of_uint d)) <= max_str_digits)%nat ->
   int_of_str (String "-" (NilEmpty.string_of_uint d)) = Some (- Z.of_N (Pos.of_uint d))).
Proof.
  intros Hd.
  pose proof (digits_value_uint d false (or_introl Hd)) as Hv.
  split; intros Hc.
  - unfold int_of_str. cbv zeta. rewrite !strip_uint.
    destruct (Nat.ltb_spec max_str_digits (count_digits (NilEmpty.string_of_uint d)));
      [lia|].
    destruct d; try contradiction; exact Hv.
  - unfold int_of_str. cbv zeta. rewrite !(strip_minus_uint d Hd).
    destruct (Nat.ltb_spec max_str_digits
                (count_digits (String "-" (NilEmpty.string_of_uint d)))); [lia|].
    rewrite Hv. reflexivity.
Qed.

(** [int(str(z))] is [z], within the limit on digits. *)
Lemma py_int_str_of_int (z : Z) :
  (count_digits (str_of_int z) <= max_str_digits)%nat ->
  py_int (PStr (str_of_int z)) = Ok z.
Proof.
  unfold py_int, str_of_int. destruct z as [|p|p]; [reflexivity|..]; simpl Z.to_int;
    pose proof (DecimalPos.Unsigned.to_uint_nonnil p) as Hn;
    pose proof (DecimalPos.Unsigned.of_to p) as Hof;
    destruct (int_of_str_uint (Pos.to_uint p) Hn) as (Hpos & Hneg);
    rewrite Hof in Hpos, Hneg; unfold NilZero.string_of_int, NilZero.string_of_uint.
  - destruct (Pos.to_uint p); try contradiction; intros Hc; now rewrite (Hpos Hc).
  - destruct (Pos.to_uint p); try contradiction; intros Hc; now rewrite (Hneg Hc).
Qed.

Lemma stamp_decision_text (z ttl : Z) (now : float) :
  (count_digits (str_of_int z) <= max_str_digits)%nat ->
  stamp_decision (PStr (str_of_int z)) ttl now = stamp_decision (PInt z) ttl now.
Proof.
  intros H. unfold stamp_decision, stamp_outcome. now rewrite (py_int_str_of_int z H).
Qed.

(** X23.  A store may hand its timestamps over as decimal text: read by
    the timestamp lookup or found in the record of the generic lookup, the
    text of a number decides like the number itself, as long as it has no
    more than the 4300 digits that the interpreter converts. *)
Theorem decimal_text_timestamp_accepted :
  forall (resolver : dict -> result string) (store : Store) (entity : dict)
         (scope : scope_arg) (pair_id : option string) (ttl_sec : option Z) (now : float)
         (feat dim key : string) (ttl z : Z),
    _coerce_scope scope = Ok (feat, dim) ->
    resolver entity = Ok key ->
    ttl_in_force store feat ttl_sec = Ok ttl ->
    unsupported (should_suppress_by_key store) ->
    (count_digits (str_of_int z) <= max_str_digits)%nat ->
    let run := should_suppress_write resolver store entity scope pair_id ttl_sec now in
    let q := {| q_key := key; q_list := feat; q_dim := opposing (Some dim);
                q_pair_id := pair_id |} in
    py_int (PStr (str_of_int z)) = Ok z /\
    (forall last_ts,
        last_negative_ts store = Method last_ts -> last_ts q = Ok (PStr (str_of_int z)) ->
        answer run = Ok (stamp_decision (PInt z) ttl now)) /\
    (no_timestamp store q ->
     forall getrec d,
       get store = Method getrec -> getrec q = Ok (PDict d) ->
       lookup "ts" d = Some (PStr (str_of_int z)) ->
       answer run = Ok (stamp_decision (PInt z) ttl now)).
Proof.
  intros resolver store entity scope pair_id ttl_sec now feat dim key ttl z Hs Hk Ht Hnp Hc
    run q.
  split; [exact (py_int_str_of_int z Hc)|]. split.
  - intros last_ts Hl Hq. subst run.
    rewrite (run_by_timestamp _ _ _ _ _ _ _ _ _ _ _ _ _ Hs Hk Ht Hnp Hl Hq
               ltac:(discriminate)).
    now rewrite stamp_decision_text.
  - intros Hnt getrec d Hg Hr Hv. subst run.
    rewrite (run_by_record _ _ _ _ _ _ _ _ _ _ _ _ _ Hs Hk Ht Hnp Hnt Hg Hr).
    unfold record_decision. rewrite Hv. now rewrite stamp_decision_text.
Qed.

Lemma decimal_text_timestamp_accepted_witness :
  answer (should_suppress_write canonical_key (ts_store (PStr "990") PNone) matrix
            rate_ratings None (Some 60) (seconds 1000))
  = Ok (stamp_decision (PInt 990) 60 (seconds 1000)).
Proof.
  destruct (decimal_text_timestamp_accepted canonical_key (ts_store (PStr "990") PNone)
              matrix rate_ratings None (Some 60) (seconds 1000) "ratings" "rate" "tmdb:603"
              60 990 eq_refl eq_refl eq_refl I) as (_ & H & _).
  - vm_compute. lia.
  - exact (H (fun _ => Ok (PStr "990")) eq_refl eq_refl).
Defined.

(** ** Further properties: defaults and identifier types *)

Lemma policy_cfg_passed_over (store : Store) :
  passed_over (cfg store) -> passed_over (config store) -> passed_over (get_config store) ->
  policy_cfg store = PNone.
Proof.
  intros H1 H2 H3. unfold policy_cfg, _cfg_from_store, next.
  pose proof (cfg_attr_passed_over "cfg" _ H1) as E1.
  pose proof (cfg_attr_passed_over "config" _ H2) as E2.
  pose proof (cfg_attr_passed_over "get_config" _ H3) as E3.
  destruct (cfg_attr "cfg" (cfg store)) as [l1 r1].
  destruct (cfg_attr "config" (config store)) as [l2 r2].
  destruct (cfg_attr "get_config" (get_config store)) as [l3 r3].
  unfold answer in *. simpl in *. subst. reflexivity.
Qed.

(** X24.  A store that offers no usable configuration, because every
    accessor is missing, raises, or holds something that is not a [dict],
    leaves the TTL of a run without override at the static default of the
    feature: 7 days for a watchlist or playlists scope, 3 for ratings, 2 for
    history. *)
Theorem static_ttl_without_configuration :
  forall (store : Store) (s : Scope),
    passed_over (cfg store) -> passed_over (config store) ->
    passed_over (get_config store) ->
    run_ttl store (ScopeObj s) None =
    Ok match scope_list s with
       | watchlist | playlists => 7 * 86400
       | ratings => 3 * 86400
       | history => 2 * 86400
       end.
Proof.
  intros store s H1 H2 H3. unfold run_ttl, ttl_in_force, ttl_or. simpl.
  rewrite (policy_cfg_passed_over store H1 H2 H3).
  destruct (scope_list s); reflexivity.
Qed.

Lemma static_ttl_without_configuration_witness :
  run_ttl broken_store rate_ratings None = Ok (3 * 86400).
Proof.
  apply (static_ttl_without_configuration broken_store
           {| scope_list := ratings; scope_dim := rate |});
    simpl; eexists; reflexivity.
Defined.

Lemma str_of_int_nonempty (z : Z) : str_of_int z <> EmptyString.
Proof.
  unfold str_of_int. destruct z as [|p|p]; simpl; try discriminate.
  destruct (Pos.to_uint p); discriminate.
Qed.

Lemma int_text_small (z : Z) : Z.abs z < digit_limit -> int_text z = Ok (str_of_int z).
Proof.
  intros H. unfold int_text.
  destruct (14284 <=? Z.log2 (Z.abs z)); [|reflexivity].
  destruct (Z.leb_spec digit_limit (Z.abs z)); [lia|reflexivity].
Qed.

Lemma first_id_same_text (d : dict) (k : string) (v v' : pyval) (keys : list string) :
  py_truthy v = true -> py_truthy v' = true -> py_str v = py_str v' ->
  option_map (fun kv => (fst kv, py_str (snd kv))) (first_id ((k, v) :: d) keys)
  = option_map (fun kv => (fst kv, py_str (snd kv))) (first_id ((k, v') :: d) keys).
Proof.
  intros Hv Hv' Hs. induction keys as [|k' rest IH]; simpl; [reflexivity|].
  destruct (String.eqb k k').
  - rewrite Hv, Hv'. simpl. now rewrite Hs.
  - destruct (lookup k' d) as [x|]; [destruct (py_truthy x)|]; auto.
Qed.

(** X25.  An identifier may be a number or the decimal text of that
    number: both give the same key, so [603] and ["603"] under [tmdb] name
    the same item.  (Zero is the exception, being an empty value; the bound
    is the interpreter's 4300 digits.) *)
Theorem canonical_key_number_or_text :
  forall (ids rest : dict) (k : string) (z : Z),
    z <> 0 ->
    Z.abs z < 10 ^ 4300 ->
    canonical_key (("ids", PDict ((k, PInt z) :: ids)) :: rest)
    = canonical_key (("ids", PDict ((k, PStr (str_of_int z)) :: ids)) :: rest).
Proof.
  intros ids rest k z Hz Hb.
  rewrite (canonical_key_by_first_id _ _ (ids_of_cons ((k, PInt z) :: ids) rest)).
  rewrite (canonical_key_by_first_id _ _ (ids_of_cons ((k, PStr (str_of_int z)) :: ids) rest)).
  assert (Ht : py_truthy (PInt z) = true)
    by (simpl; destruct (Z.eqb_spec z 0); [contradiction|reflexivity]).
  assert (Ht' : py_truthy (PStr (str_of_int z)) = true).
  { simpl. destruct (String.eqb_spec (str_of_int z) ""); [|reflexivity].
    now elim (str_of_int_nonempty z). }
  assert (Hs : py_str (PInt z) = py_str (PStr (str_of_int z)))
    by (simpl; now apply int_text_small).
  pose proof (first_id_same_text ids k (PInt z) (PStr (str_of_int z)) _ID_KEYS Ht Ht' Hs)
    as H.
  destruct (first_id ((k, PInt z) :: ids) _ID_KEYS) as [[k1 v1]|];
    destruct (first_id ((k, PStr (str_of_int z)) :: ids) _ID_KEYS) as [[k2 v2]|];
    simpl in H; try discriminate H.
  - injection H as -> ->. reflexivity.
  - reflexivity.
Qed.

Lemma canonical_key_number_or_text_witness :
  canonical_key [("ids", PDict [("tmdb", PInt 603)]); ("title", PStr "The Matrix")]
  = canonical_key [("ids", PDict [("tmdb", PStr "603")]); ("title", PStr "The Matrix")].
Proof.
  apply (canonical_key_number_or_text [] [("title", PStr "The Matrix")] "tmdb" 603).
  - discriminate.
  - vm_compute. reflexivity.
Defined.
